(** * AI-Werewolf: the agent's memory store and the wolves' coordination engine

    A shallow embedding of [shared/lib/src/werewolfCommunicationSystem.ts]
    (classes [WerewolfCommunicationSystem] and [AIMemorySystem]) together
    with the properties stated about them.

    Conventions of the embedding.
    - Player ids, rounds, counts and indices are JavaScript numbers that only
      ever hold integers: they are [Z].
    - Scores (confidence, relevance, priority, risk, threat) are JavaScript
      numbers holding fractions: they are IEEE-754 binary64 values, Rocq's
      primitive [float], so that [0.1 + 0.1 + 0.1 > 0.3] holds here as it
      does in the running program.
    - Strings are byte strings holding UTF-8.  A well-formed needle occurs in
      a well-formed text as a run of UTF-16 units exactly when it occurs as a
      run of UTF-8 bytes, so [String.prototype.includes] is byte search.
    - An object used as a record keyed by round ([AllSpeeches], [AllVotes])
      and a [Map] are association lists in enumeration order.
    - A method is a function from the instance's state to a result and the
      next state; a method that can raise returns a [Completion]. *)

From Stdlib Require Import ZArith List String Ascii Bool Lia.
From Stdlib Require Import DecimalString Uint63 Floats.
From Stdlib Require Import Sorting.Sorted Sorting.Permutation.
Import ListNotations.

Set Warnings "-inexact-float".
#[local] Open Scope string_scope.
#[local] Open Scope Z_scope.

(** ** JavaScript values and built-ins used by the core *)

Module JS.

(** Outcome of a call that may raise. *)
Inductive Completion (A : Type) : Type :=
| Normal (a : A)
| Throw (error : string).
Arguments Normal {A} a.
Arguments Throw {A} error.

Definition TypeError : string := "TypeError".

(** [Array.prototype.push], [includes] (on integers), [some], [find],
    [findIndex] (with [-1] for no match) and [slice(0, n)]. *)
Definition push {A} (l : list A) (x : A) : list A := l ++ [x].

Definition includes (x : Z) (l : list Z) : bool := existsb (Z.eqb x) l.

Definition some {A} (f : A -> bool) (l : list A) : bool := existsb f l.

Fixpoint findIndex_from {A} (f : A -> bool) (l : list A) (i : Z) : Z :=
  match l with
  | [] => -1
  | x :: l' => if f x then i else findIndex_from f l' (i + 1)
  end.

Definition findIndex {A} (f : A -> bool) (l : list A) : Z :=
  findIndex_from f l 0.

Definition slice0 {A} (n : Z) (l : list A) : list A :=
  if n <? 0 then firstn (Z.to_nat (Z.of_nat (List.length l) + n)) l
  else firstn (Z.to_nat n) l.

(** [s.includes(needle)]. *)
Fixpoint String_includes (s needle : string) : bool :=
  prefix needle s ||
  match s with
  | EmptyString => false
  | String _ s' => String_includes s' needle
  end.

(** [parts.join(sep)]. *)
Definition join (sep : string) (parts : list string) : string :=
  String.concat sep parts.

(** An integer inside a template literal or under [toString()] (all its
    digits, as JavaScript prints an integer below [10^21]). *)
Definition Z_toString (z : Z) : string :=
  NilEmpty.string_of_int (Z.to_int z).

(** Truthiness of a number that holds an integer: only [0] is falsy. *)
Definition truthy (z : Z) : bool := negb (z =? 0).

(** An integer entering float arithmetic: exact below [2^53], which
    bounds every array length and count. *)
Definition Z2F (z : Z) : float :=
  if z <? 0 then (- of_uint63 (Uint63.of_Z (- z)))%float
  else of_uint63 (Uint63.of_Z z).

(** [n > l.length / 2] for an integer [n]: halving a length is exact, so
    this is the comparison of [l.length] with [2 * n]. *)
Definition exceeds_half {A} (n : Z) (l : list A) : bool :=
  Z.of_nat (List.length l) <? 2 * n.

(** [Math.min] on two numbers: [NaN] is contagious and [-0 < +0]. *)
Definition Math_min (x y : float) : float :=
  if is_nan x || is_nan y then nan
  else if (x <? y)%float then x
  else if (y <? x)%float then y
  else if get_sign x then x else y.

(** [Math.round]: the nearest integer, ties upwards; [None] for [NaN] and
    the infinities, which it returns unchanged. *)
Definition Math_round (x : float) : option Z :=
  match Prim2SF x with
  | S754_zero _ => Some 0
  | S754_finite s m e =>
      let n := if s then Z.neg m else Z.pos m in
      if 0 <=? e then Some (n * 2 ^ e)
      else Some ((2 * n + 2 ^ (- e)) / 2 ^ (1 - e))
  | _ => None
  end.

(** [Array.prototype.sort] under a comparator [(a, b) => key(b) - key(a)]:
    the stable arrangement by descending key.  The sort looks only at the
    sign of the comparator: [key(b) - key(a) > 0], which puts [b] first,
    holds exactly when [key(a) < key(b)], and a difference that is [NaN]
    counts as a tie.  With keys that are numbers the comparator is
    consistent and every stable sort yields this arrangement. *)
Section Sort.
Context {A : Type} (key : A -> float).

Fixpoint insert_desc (x : A) (l : list A) : list A :=
  match l with
  | [] => [x]
  | y :: l' =>
      if (key x <? key y)%float then y :: insert_desc x l'
      else x :: y :: l'
  end.

Definition sort_desc (l : list A) : list A :=
  fold_right insert_desc [] l.
End Sort.

(** A [Map] keyed by integers, in insertion order. *)
Section MapOps.
Context {V : Type}.

Fixpoint Map_get (k : Z) (m : list (Z * V)) : option V :=
  match m with
  | [] => None
  | (k', v) :: m' => if k =? k' then Some v else Map_get k m'
  end.

Definition Map_has (k : Z) (m : list (Z * V)) : bool :=
  match Map_get k m with Some _ => true | None => false end.

Fixpoint Map_set (k : Z) (v : V) (m : list (Z * V)) : list (Z * V) :=
  match m with
  | [] => [(k, v)]
  | (k', v') :: m' =>
      if k =? k' then (k, v) :: m' else (k', v') :: Map_set k v m'
  end.

Definition Map_delete (k : Z) (m : list (Z * V)) : list (Z * V) :=
  filter (fun kv => negb (fst kv =? k)) m.

Definition Map_keys (m : list (Z * V)) : list Z := map fst m.
End MapOps.

(** [Object.values] and the speeches or votes of all rounds in
    enumeration order. *)
Definition Object_values {A} (o : list (Z * A)) : list A := map snd o.

End JS.
Import JS.

(** ** Declarations of [@ai-werewolf/types] used by the core *)

Definition PlayerId : Type := Z.
Definition Round : Type := Z.

(** Modelled from the spec: the [Role] enum of [@ai-werewolf/types]; the
    core and the console name exactly these four members. *)
Inductive Role : Type := WEREWOLF | SEER | WITCH | VILLAGER.

(** Modelled from the spec: the [GamePhase] enum of [@ai-werewolf/types];
    the core names [DAY] only and never branches on a phase. *)
Inductive GamePhase : Type :=
| DAY
| OtherPhase (name : string).

(** Modelled from the spec: a roster entry (id and whether alive). *)
Record PlayerInfo : Type := mkPlayerInfo {
  id : PlayerId;
  isAlive : bool
}.

(** Modelled from the spec: a speech record (speaker id and text). *)
Record Speech : Type := mkSpeech {
  speech_playerId : PlayerId;
  speech_content : string
}.

(** Modelled from the spec: a vote record (voter id and target id). *)
Record Vote : Type := mkVote {
  voterId : PlayerId;
  targetId : PlayerId
}.

(** The literal type ['low' | 'medium' | 'high']. *)
Inductive Level : Type := low | medium | high.

Definition AllSpeeches : Type := list (Round * list Speech).
Definition AllVotes : Type := list (Round * list Vote).

(** What the core takes from outside its source: built-ins whose result is
    not fixed by the arguments the model sees, and the strings behind the
    [Role] members. *)
Class Externals : Type := {
  (** [String.prototype.toLowerCase] *)
  toLowerCase : string -> string;
  (** a number inside a template literal, when it is not a small integer *)
  Number_toString : float -> string;
  (** [Date.now()] at the n-th reading of the clock *)
  Date_now : nat -> Z;
  (** [Math.random().toString(36).substr(2, 9)] at the n-th reading *)
  Math_random_tag : nat -> string;
  (** the run-time value of a [Role] member *)
  Role_toString : Role -> string
}.

(** [Math.round(x)] inside a template literal. *)
Definition rounded_toString `{Externals} (x : float) : string :=
  match Math_round x with
  | Some n => if Z.abs n <? 10 ^ 21 then Z_toString n else Number_toString x
  | None => Number_toString x
  end.

(** ** Class [WerewolfCommunicationSystem] *)

Module WerewolfCommunicationSystem.

Inductive MessageType : Type :=
| strategy | target_suggestion | information | coordination.

Record WerewolfMessage : Type := mkMessage {
  msg_id : string;
  senderId : PlayerId;
  msg_content : string;
  msg_timestamp : Z;
  msg_round : Round;
  msg_type : MessageType
}.

Record WerewolfTeamDecision : Type := mkDecision {
  targetPlayerId : PlayerId;
  reason : string;
  consensus : bool;
  participatingMembers : list PlayerId;
  (** [aliveWerewolves[0]], [undefined] on an empty roster *)
  finalDecisionMaker : option PlayerId
}.

Record WerewolfCommunicationContext : Type := mkContext {
  ctx_round : Round;
  alivePlayers : list PlayerInfo;
  werewolfTeam : list PlayerId;
  aliveWerewolves : list PlayerId;
  targetCandidates : list PlayerId;
  gameAnalysis : string;
  urgencyLevel : Level
}.

Record MemberSuggestion : Type := mkSuggestion {
  memberId : PlayerId;
  suggestedTarget : PlayerId;
  sug_reason : string;
  sug_priority : float
}.

(** The instance: its three private fields, and how often it has read the
    clock and the random source. *)
Record State : Type := mkState {
  messages : list WerewolfMessage;
  teamDecisions : list WerewolfTeamDecision;
  communicationHistory : list (Round * list WerewolfMessage);
  readings : nat
}.

Definition new : State := mkState [] [] [] 0.

(** *** [analyzeGameSituation] *)

Record GameAnalysis : Type := mkAnalysis {
  threatLevel : Level;
  suspiciousPlayers : list PlayerId;
  godRoleCandidates : list PlayerId;
  safePlayers : list PlayerId;
  urgentActions : list string
}.

Definition add_godRoleCandidate (p : PlayerId) (a : GameAnalysis)
  : GameAnalysis :=
  if negb (includes p (godRoleCandidates a))
  then mkAnalysis (threatLevel a) (suspiciousPlayers a)
         (push (godRoleCandidates a) p) (safePlayers a) (urgentActions a)
  else a.

Definition add_suspiciousPlayer (p : PlayerId) (a : GameAnalysis)
  : GameAnalysis :=
  if negb (includes p (suspiciousPlayers a))
  then mkAnalysis (threatLevel a) (push (suspiciousPlayers a) p)
         (godRoleCandidates a) (safePlayers a) (urgentActions a)
  else a.

Definition add_safePlayer (p : PlayerId) (a : GameAnalysis) : GameAnalysis :=
  mkAnalysis (threatLevel a) (suspiciousPlayers a) (godRoleCandidates a)
    (push (safePlayers a) p) (urgentActions a).

Definition raise_threat (action : string) (a : GameAnalysis) : GameAnalysis :=
  mkAnalysis high (suspiciousPlayers a) (godRoleCandidates a)
    (safePlayers a) (push (urgentActions a) action).

Definition seer_marker (content : string) : bool :=
  String_includes content "预言家" || String_includes content "查验"
  || String_includes content "昨晚我查了".

Definition witch_marker (content : string) : bool :=
  String_includes content "女巫" || String_includes content "药水"
  || String_includes content "救人" || String_includes content "毒死".

Definition suspicion_marker (content : string) : bool :=
  String_includes content "狼人"
  && (String_includes content "认为" || String_includes content "怀疑").

Section Scan.
Context `{Externals} (context : WerewolfCommunicationContext).

(** Body of the inner loop over speeches. *)
Definition scan_speech (a : GameAnalysis) (speech : Speech)
  : GameAnalysis :=
  if includes (speech_playerId speech) (werewolfTeam context) then a
  else
    let content := toLowerCase (speech_content speech) in
    let a1 := if seer_marker content
              then add_godRoleCandidate (speech_playerId speech) a
              else a in
    let a2 := if witch_marker content
              then add_godRoleCandidate (speech_playerId speech) a1
              else a1 in
    if suspicion_marker content
    then fold_left
           (fun acc werewolfId =>
              if String_includes content (Z_toString werewolfId)
              then raise_threat
                     (Z_toString (speech_playerId speech) ++ "号怀疑"
                      ++ Z_toString werewolfId ++ "号是狼人") acc
              else acc)
           (werewolfTeam context) a2
    else a2.

(** Body of the inner loop over votes. *)
Definition scan_vote (a : GameAnalysis) (vote : Vote) : GameAnalysis :=
  if includes (targetId vote) (werewolfTeam context)
  then add_suspiciousPlayer (voterId vote) a
  else a.

(** Body of the loop over alive players. *)
Definition scan_player (a : GameAnalysis) (player : PlayerInfo)
  : GameAnalysis :=
  if includes (id player) (werewolfTeam context) then a
  else if negb (includes (id player) (godRoleCandidates a))
          && negb (includes (id player) (suspiciousPlayers a))
       then add_safePlayer (id player) a
       else a.

Definition analyzeGameSituation (allSpeeches : AllSpeeches)
  (allVotes : AllVotes) : GameAnalysis :=
  let a0 := mkAnalysis medium [] [] [] [] in
  let a1 := fold_left (fun a speeches => fold_left scan_speech speeches a)
              (Object_values allSpeeches) a0 in
  let a2 := fold_left (fun a votes => fold_left scan_vote votes a)
              (Object_values allVotes) a1 in
  fold_left scan_player (alivePlayers context) a2.
End Scan.

(** *** [generateCommunicationContent] *)

Record Communication : Type := mkCommunication {
  messageType : MessageType;
  comm_content : string;
  priority : Level;
  comm_suggestedTarget : option PlayerId;
  reasoning : string
}.

Definition generateCommunicationContent (gameAnalysis : GameAnalysis)
  : Communication :=
  match godRoleCandidates gameAnalysis with
  | target :: _ =>
      mkCommunication target_suggestion
        ("建议优先击杀" ++ Z_toString target ++ "号，疑似神职角色")
        high (Some target) "消除神职角色威胁"
  | [] =>
      match threatLevel gameAnalysis with
      | high =>
          mkCommunication coordination
            "我们被怀疑了，需要更好地伪装和配合" high None "应对高威胁局势"
      | _ =>
          match safePlayers gameAnalysis with
          | target :: _ =>
              mkCommunication target_suggestion
                (Z_toString target ++ "号相对安全，建议作为击杀目标")
                medium (Some target) "选择风险较低的目标"
          | [] =>
              mkCommunication strategy
                "需要仔细分析局势，寻找最佳击杀时机" low None "常规策略讨论"
          end
      end
  end.

(** *** [addMessage] and [generateWerewolfCommunication] *)

Definition addMessage `{Externals} (sender : PlayerId) (content : string)
  (round : Round) (type : MessageType) (st : State) : State :=
  let n := readings st in
  let message :=
    mkMessage
      ("werewolf_msg_" ++ Z_toString (Date_now n) ++ "_"
       ++ Math_random_tag (S n))
      sender content (Date_now (S (S n))) round type in
  let history :=
    if negb (Map_has round (communicationHistory st))
    then Map_set round [] (communicationHistory st)
    else communicationHistory st in
  let bucket :=
    match Map_get round history with Some b => b | None => [] end in
  mkState (push (messages st) message) (teamDecisions st)
    (Map_set round (push bucket message) history) (S (S (S n))).

Definition generateWerewolfCommunication `{Externals} (sender : PlayerId)
  (context : WerewolfCommunicationContext) (allSpeeches : AllSpeeches)
  (allVotes : AllVotes) (st : State) : Communication * State :=
  let analysis := analyzeGameSituation context allSpeeches allVotes in
  let communication := generateCommunicationContent analysis in
  (communication,
   addMessage sender (comm_content communication) (ctx_round context)
     (messageType communication) st).

(** *** [analyzeTargetSuggestions] *)

Record TargetData : Type := mkTargetData {
  votes : Z;
  totalPriority : float;
  reasons : list string;
  riskLevel : float
}.

(** Body of the first loop: create the target's entry if absent, then
    update it where it stands. *)
Definition record_suggestion (analysis : list (PlayerId * TargetData))
  (suggestion : MemberSuggestion) : list (PlayerId * TargetData) :=
  let target := suggestedTarget suggestion in
  let analysis1 :=
    if negb (Map_has target analysis)
    then Map_set target (mkTargetData 0 0%float [] 0%float) analysis
    else analysis in
  match Map_get target analysis1 with
  | Some targetData =>
      Map_set target
        (mkTargetData (votes targetData + 1)
           (totalPriority targetData + sug_priority suggestion)%float
           (push (reasons targetData) (sug_reason suggestion))
           (riskLevel targetData))
        analysis1
  | None => analysis1
  end.

Definition mentions_god_role (r : string) : bool :=
  String_includes r "神职" || String_includes r "预言家"
  || String_includes r "女巫".

Definition mentions_suspicion (r : string) : bool :=
  String_includes r "怀疑" || String_includes r "威胁".

(** Body of the second loop. *)
Definition assess_risk (data : TargetData) : TargetData :=
  mkTargetData (votes data) (totalPriority data) (reasons data)
    (if some mentions_god_role (reasons data) then 0.3%float
     else if some mentions_suspicion (reasons data) then 0.8%float
     else 0.5%float).

Definition analyzeTargetSuggestions (suggestions : list MemberSuggestion)
  : list (PlayerId * TargetData) :=
  map (fun kv => (fst kv, assess_risk (snd kv)))
    (fold_left record_suggestion suggestions []).

(** *** [makeTeamDecision] *)

Definition score (data : TargetData) : float :=
  (Z2F (votes data) * 0.4 + totalPriority data * 0.4
   + (1 - riskLevel data) * 0.2)%float.

(** The scoring loop: [(bestTarget, bestScore)] after each entry. *)
Definition pick_best (best : option PlayerId * float)
  (entry : PlayerId * TargetData) : option PlayerId * float :=
  if (snd best <? score (snd entry))%float
  then (Some (fst entry), score (snd entry))
  else best.

Definition best_target (targetAnalysis : list (PlayerId * TargetData))
  : option PlayerId :=
  fst (fold_left pick_best targetAnalysis (None, (-1)%float)).

(** Truthiness of a [PlayerId | null | undefined]. *)
Definition truthy_id (o : option PlayerId) : bool :=
  match o with Some p => truthy p | None => false end.

(** [a || b] where [a] is a [PlayerId | null | undefined] and evaluating
    [b] may raise. *)
Definition or_id (a : option PlayerId) (b : Completion PlayerId)
  : Completion PlayerId :=
  match a with
  | Some p => if truthy p then Normal p else b
  | None => b
  end.

Definition makeTeamDecision (targetAnalysis : list (PlayerId * TargetData))
  (context : WerewolfCommunicationContext)
  : Completion WerewolfTeamDecision :=
  let bestTarget0 := best_target targetAnalysis in
  let bestTarget :=
    if negb (truthy_id bestTarget0)
       && (0 <? Z.of_nat (List.length (targetCandidates context)))
    then hd_error (targetCandidates context)
    else bestTarget0 in
  let targetData :=
    if truthy_id bestTarget
    then match bestTarget with
         | Some t => Map_get t targetAnalysis
         | None => None
         end
    else None in
  let consensus :=
    match targetData with
    | Some d => exceeds_half (votes d) (aliveWerewolves context)
    | None => false
    end in
  let reason :=
    match targetData with
    | Some d => join "; " (reasons d)
    | None => "默认选择"
    end in
  match
    or_id bestTarget
      (or_id (hd_error (targetCandidates context))
         (match alivePlayers context with
          | p :: _ => Normal (id p)
          | [] => Throw TypeError
          end))
  with
  | Normal target =>
      Normal (mkDecision target reason consensus (aliveWerewolves context)
                (hd_error (aliveWerewolves context)))
  | Throw e => Throw e
  end.

(** *** [negotiateKillTarget] *)

Definition negotiateKillTarget (context : WerewolfCommunicationContext)
  (memberSuggestions : list MemberSuggestion) (st : State)
  : Completion WerewolfTeamDecision * State :=
  let targetAnalysis := analyzeTargetSuggestions memberSuggestions in
  match makeTeamDecision targetAnalysis context with
  | Normal decision =>
      (Normal decision,
       mkState (messages st) (push (teamDecisions st) decision)
         (communicationHistory st) (readings st))
  | Throw e => (Throw e, st)
  end.

(** *** [getCommunicationHistory] and [cleanup] *)

Definition getCommunicationHistory (round : option Round) (st : State)
  : list WerewolfMessage :=
  match round with
  | Some r =>
      if truthy r
      then match Map_get r (communicationHistory st) with
           | Some b => b
           | None => []
           end
      else messages st
  | None => messages st
  end.

(** The loop over the history deletes while it enumerates; a [Map]
    iterator still visits every entry that was there. *)
Definition cleanup (currentRound : Round) (st : State) : State :=
  mkState
    (filter (fun msg => currentRound - msg_round msg <=? 3) (messages st))
    (teamDecisions st)
    (fold_left
       (fun history round =>
          if 3 <? currentRound - round then Map_delete round history
          else history)
       (Map_keys (communicationHistory st)) (communicationHistory st))
    (readings st).

(** *** [getTeamDecisions] *)

Definition getTeamDecisions (st : State)
  : list WerewolfTeamDecision * State :=
  (teamDecisions st, st).

(** *** [generateIndividualStrategy] and [generateDayStrategy] *)

Record IndividualStrategy : Type := mkIndividual {
  speechStrategy : string;
  votingStrategy : string;
  ind_riskLevel : Level
}.

Definition is_high (l : Level) : bool :=
  match l with high => true | _ => false end.

Definition generateIndividualStrategy (werewolfId : PlayerId)
  (context : WerewolfCommunicationContext) : IndividualStrategy :=
  let isLeader :=
    match hd_error (aliveWerewolves context) with
    | Some leader => werewolfId =? leader
    | None => false
    end in
  let riskLevel := urgencyLevel context in
  let speech0 :=
    if isLeader then "适度引导讨论方向，不要过于主动"
    else "支持队友观点但不要过于明显" in
  let voting0 :=
    if isLeader then "在投票中期参与，避免第一个投票"
    else "跟随大多数意见，偶尔表达不同看法" in
  mkIndividual
    (if is_high riskLevel then speech0 ++ "，需要更加谨慎" else speech0)
    (if is_high riskLevel then voting0 ++ "，避免暴露关联" else voting0)
    riskLevel.

Record DayStrategy : Type := mkDayStrategy {
  overallStrategy : string;
  individualStrategies : list (PlayerId * IndividualStrategy);
  coordinationPoints : list string
}.

Definition generateDayStrategy (context : WerewolfCommunicationContext)
  (teamDecision : WerewolfTeamDecision) (st : State) : DayStrategy * State :=
  let strategies :=
    fold_left
      (fun strategies werewolfId =>
         Map_set werewolfId (generateIndividualStrategy werewolfId context)
           strategies)
      (aliveWerewolves context) [] in
  let points :=
    ["避免同时投票给同一目标"; "分散发言时间避免过于一致";
     "适当质疑队友制造假象"] in
  (mkDayStrategy
     ("团队目标: 消除" ++ Z_toString (targetPlayerId teamDecision)
      ++ "号玩家，白天需要伪装成村民")
     strategies
     (if is_high (urgencyLevel context) then push points "优先保护核心成员"
      else points),
   st).

(** *** The states an instance can be in *)

(** A call of a public method. *)
Inductive Call : Type :=
| call_generateWerewolfCommunication (senderId : PlayerId)
    (context : WerewolfCommunicationContext) (allSpeeches : AllSpeeches)
    (allVotes : AllVotes)
| call_negotiateKillTarget (context : WerewolfCommunicationContext)
    (memberSuggestions : list MemberSuggestion)
| call_generateDayStrategy (context : WerewolfCommunicationContext)
    (teamDecision : WerewolfTeamDecision)
| call_getCommunicationHistory (round : option Round)
| call_getTeamDecisions
| call_cleanup (currentRound : Round).

(** The instance after a call. *)
Definition step `{Externals} (c : Call) (st : State) : State :=
  match c with
  | call_generateWerewolfCommunication senderId context allSpeeches allVotes =>
      snd (generateWerewolfCommunication senderId context allSpeeches
             allVotes st)
  | call_negotiateKillTarget context memberSuggestions =>
      snd (negotiateKillTarget context memberSuggestions st)
  | call_generateDayStrategy context teamDecision =>
      snd (generateDayStrategy context teamDecision st)
  | call_getCommunicationHistory _ => st
  | call_getTeamDecisions => snd (getTeamDecisions st)
  | call_cleanup currentRound => cleanup currentRound st
  end.

Inductive reachable `{Externals} : State -> Prop :=
| reachable_new : reachable new
| reachable_step c st : reachable st -> reachable (step c st).

End WerewolfCommunicationSystem.

(** ** Class [AIMemorySystem] *)

Module AIMemorySystem.

Inductive MemoryType : Type :=
| speech_analysis | vote_pattern | role_deduction | strategy
| contradiction.

Inductive MemorySource : Type := observation | deduction | interaction.

Record AIMemoryEntry : Type := mkEntry {
  mem_id : string;
  mem_timestamp : Z;
  mem_round : Round;
  mem_type : MemoryType;
  mem_playerId : option PlayerId;
  mem_content : string;
  confidence : float;
  relevance : float;
  mem_source : MemorySource
}.

Record PlayerProfile : Type := mkProfile {
  profile_playerId : PlayerId;
  suspectedRole : option Role;
  profile_confidence : float;
  behaviors : list string;
  contradictions : list string;
  alliances : list PlayerId;
  threats : list PlayerId;
  lastUpdated : Round
}.

Record GameContext : Type := mkGameContext {
  myRole : Role;
  myPlayerId : PlayerId;
  teammates : list PlayerId;
  currentRound : Round;
  currentPhase : GamePhase
}.

(** The instance: [memories], [playerProfiles] and [gameContext] (the
    field [strategyMemories] is never read or written), and how often the
    instance has read the clock and the random source. *)
Record State : Type := mkState {
  memories : list AIMemoryEntry;
  playerProfiles : list (PlayerId * PlayerProfile);
  gameContext : GameContext;
  readings : nat
}.

(** The constructor; [teammates || []]. *)
Definition new (myRole : Role) (myPlayerId : PlayerId)
  (teammates : option (list PlayerId)) : State :=
  mkState [] []
    (mkGameContext myRole myPlayerId
       (match teammates with Some t => t | None => [] end) 1 DAY)
    0.

Definition updateGameContext (round : Round) (phase : GamePhase)
  (st : State) : State :=
  mkState (memories st) (playerProfiles st)
    (mkGameContext (myRole (gameContext st)) (myPlayerId (gameContext st))
       (teammates (gameContext st)) round phase)
    (readings st).

(** *** [addMemory] *)

(** [Omit<AIMemoryEntry, 'id' | 'timestamp' | 'round'>] *)
Record MemoryParams : Type := mkParams {
  p_type : MemoryType;
  p_playerId : option PlayerId;
  p_content : string;
  p_confidence : float;
  p_relevance : float;
  p_source : MemorySource
}.

(** The sort key [relevance * confidence]. *)
Definition importance (m : AIMemoryEntry) : float :=
  (relevance m * confidence m)%float.

Definition new_entry `{Externals} (params : MemoryParams) (st : State)
  : AIMemoryEntry :=
  let n := readings st in
  mkEntry
    ("memory_" ++ Z_toString (Date_now n) ++ "_" ++ Math_random_tag (S n))
    (Date_now (S (S n))) (currentRound (gameContext st))
    (p_type params) (p_playerId params) (p_content params)
    (p_confidence params) (p_relevance params) (p_source params).

Definition addMemory `{Externals} (params : MemoryParams) (st : State)
  : State :=
  let pushed := push (memories st) (new_entry params st) in
  mkState
    (if 100 <? Z.of_nat (List.length pushed)
     then slice0 80 (sort_desc importance pushed)
     else pushed)
    (playerProfiles st) (gameContext st) (S (S (S (readings st)))).

(** *** [extractSpeechInsights] and [calculateRelevance] *)

Record SpeechInsights : Type := mkInsights {
  summary : string;
  insight_confidence : float;
  keywords : list string
}.

(** One of the five keyword tests: on a hit, push the tag and add 0.1. *)
Definition note (hit : bool) (tag : string) (acc : list string * float)
  : list string * float :=
  if hit then (push (fst acc) tag, (snd acc + 0.1)%float) else acc.

Definition extractSpeechInsights `{Externals} (speech : Speech)
  (allSpeeches : AllSpeeches) : SpeechInsights :=
  let content := toLowerCase (speech_content speech) in
  let acc0 := ([], 0.5%float) in
  let acc1 := note (String_includes content "狼人"
                    || String_includes content "杀") "狼人相关" acc0 in
  let acc2 := note (String_includes content "预言家"
                    || String_includes content "查验") "预言家相关" acc1 in
  let acc3 := note (String_includes content "女巫"
                    || String_includes content "药") "女巫相关" acc2 in
  let acc4 := note (String_includes content "投票"
                    || String_includes content "出局") "投票相关" acc3 in
  let acc5 := note (String_includes content "昨晚"
                    || String_includes content "夜里") "夜间信息" acc4 in
  let keywords := fst acc5 in
  mkInsights
    (Z_toString (speech_playerId speech) ++ "号: "
     ++ (if 0 <? Z.of_nat (List.length keywords) then join ", " keywords
         else "一般发言"))
    (Math_min (snd acc5) 1.0%float) keywords.

Definition core_keyword (k : string) : bool :=
  String_includes k "狼人" || String_includes k "预言家"
  || String_includes k "女巫".

Definition calculateRelevance (playerId : PlayerId)
  (keywords : list string) (st : State) : float :=
  let r0 := 0.5%float in
  let r1 := if includes playerId (teammates (gameContext st))
            then (r0 * 0.7)%float else r0 in
  let r2 := if some core_keyword keywords then (r1 + 0.3)%float else r1 in
  Math_min r2 1.0%float.

(** *** [updatePlayerProfile] *)

Definition updatePlayerProfile (playerId : PlayerId)
  (analysis : SpeechInsights) (alivePlayers : list PlayerInfo) (st : State)
  : State :=
  let round := currentRound (gameContext st) in
  let profile :=
    match Map_get playerId (playerProfiles st) with
    | Some profile => profile
    | None => mkProfile playerId None 0%float [] [] [] [] round
    end in
  let behaviors1 :=
    if 0 <? Z.of_nat (List.length (keywords analysis))
    then push (behaviors profile)
           ("第" ++ Z_toString round ++ "轮: "
            ++ join ", " (keywords analysis))
    else behaviors profile in
  mkState (memories st)
    (Map_set playerId
       (mkProfile (profile_playerId profile) (suspectedRole profile)
          (profile_confidence profile) behaviors1 (contradictions profile)
          (alliances profile) (threats profile) round)
       (playerProfiles st))
    (gameContext st) (readings st).

(** *** [detectContradictions] and [analyzeSpeech] *)

(** All speeches of one player, round by round. *)
Definition speeches_of (playerId : PlayerId) (allSpeeches : AllSpeeches)
  : list Speech :=
  flat_map (filter (fun s => speech_playerId s =? playerId))
    (Object_values allSpeeches).

(** Body of the loop over the player's speeches. *)
Definition compare_with_past `{Externals} (speech : Speech)
  (found : list string) (pastSpeech : Speech) : list string :=
  if String.eqb (speech_content pastSpeech) (speech_content speech)
  then found
  else
    let currentContent := toLowerCase (speech_content speech) in
    let pastContent := toLowerCase (speech_content pastSpeech) in
    let f1 := if String_includes currentContent "我是预言家"
                 && String_includes pastContent "我不是预言家"
              then push found "角色声明前后矛盾" else found in
    let f2 := if String_includes currentContent "我是女巫"
                 && String_includes pastContent "我不是女巫"
              then push f1 "角色声明前后矛盾" else f1 in
    if String_includes currentContent "查验"
       && String_includes pastContent "查验"
    then push f2 "查验结果可能矛盾" else f2.

Definition detectContradictions `{Externals} (playerId : PlayerId)
  (speech : Speech) (allSpeeches : AllSpeeches) : list string :=
  fold_left (compare_with_past speech) (speeches_of playerId allSpeeches) [].

Definition analyzeSpeech `{Externals} (speech : Speech)
  (allSpeeches : AllSpeeches) (alivePlayers : list PlayerInfo) (st : State)
  : State :=
  let playerId := speech_playerId speech in
  let analysis := extractSpeechInsights speech allSpeeches in
  let st1 :=
    addMemory
      (mkParams speech_analysis (Some playerId) (summary analysis)
         (insight_confidence analysis)
         (calculateRelevance playerId (keywords analysis) st) observation)
      st in
  let st2 := updatePlayerProfile playerId analysis alivePlayers st1 in
  let found := detectContradictions playerId speech allSpeeches in
  if 0 <? Z.of_nat (List.length found)
  then addMemory
         (mkParams contradiction (Some playerId)
            ("检测到矛盾: " ++ join "; " found) 0.8%float 0.9%float deduction)
         st2
  else st2.

(** *** [extractVotingPatterns] and [analyzeVotingPattern] *)

Record VotingPattern : Type := mkPattern {
  pattern_playerId : PlayerId;
  description : string;
  pattern_confidence : float
}.

Definition same_vote (a b : Vote) : bool :=
  (voterId a =? voterId b) && (targetId a =? targetId b).

Definition detectFollowerBehavior (playerVotes : list Vote)
  (allVotes : AllVotes) : bool :=
  let followCount :=
    fold_left
      (fun count vote =>
         match find (some (fun v => same_vote v vote))
                 (Object_values allVotes) with
         | None => count
         | Some roundVotes =>
             let voteIndex :=
               findIndex (fun v => voterId v =? voterId vote) roundVotes in
             if exceeds_half voteIndex roundVotes then count + 1 else count
         end)
      playerVotes 0 in
  (Z2F (Z.of_nat (List.length playerVotes)) * 0.6 <? Z2F followCount)%float.

(** The first loop: the votes of each voter, voters in order of their
    first vote. *)
Definition group_vote (playerVotes : list (PlayerId * list Vote))
  (vote : Vote) : list (PlayerId * list Vote) :=
  let grouped :=
    if negb (Map_has (voterId vote) playerVotes)
    then Map_set (voterId vote) [] playerVotes
    else playerVotes in
  match Map_get (voterId vote) grouped with
  | Some cast => Map_set (voterId vote) (push cast vote) grouped
  | None => grouped
  end.

(** Body of the second loop. *)
Definition patterns_of (allVotes : AllVotes)
  (patterns : list VotingPattern) (entry : PlayerId * list Vote)
  : list VotingPattern :=
  let (playerId, cast) := entry in
  if Z.of_nat (List.length cast) <? 2 then patterns
  else
    let p1 := if detectFollowerBehavior cast allVotes
              then push patterns
                     (mkPattern playerId "经常跟票，可能是狼人或保守村民"
                        0.6%float)
              else patterns in
    if Nat.eqb (List.length (nodup Z.eq_dec (map targetId cast)))
         (List.length cast)
    then push p1 (mkPattern playerId "投票分散，可能在搅局" 0.5%float)
    else p1.

Definition extractVotingPatterns (votes : list Vote) (allVotes : AllVotes)
  : list VotingPattern :=
  let playerVotes :=
    fold_left (fun acc roundVotes => fold_left group_vote roundVotes acc)
      (Object_values allVotes) [] in
  fold_left (patterns_of allVotes) playerVotes [].

Definition analyzeVotingPattern `{Externals} (votes : list Vote)
  (allVotes : AllVotes) (alivePlayers : list PlayerInfo) (st : State)
  : State :=
  fold_left
    (fun s pattern =>
       addMemory
         (mkParams vote_pattern (Some (pattern_playerId pattern))
            (description pattern) (pattern_confidence pattern) 0.8%float
            observation)
         s)
    (extractVotingPatterns votes allVotes) st.

(** *** [analyzePlayerRole] and [deduceRoles] *)

Record RoleScores : Type := mkScores {
  werewolfScore : float;
  seerScore : float;
  witchScore : float;
  villagerScore : float
}.

(** Body of the loop over the player's speeches. *)
Definition score_speech `{Externals} (s : RoleScores) (speech : Speech)
  : RoleScores :=
  let content := toLowerCase (speech_content speech) in
  mkScores
    (if String_includes content "不确定" || String_includes content "可能"
     then (werewolfScore s + 0.1)%float else werewolfScore s)
    (if String_includes content "预言家" || String_includes content "查验"
     then (seerScore s + 0.2)%float else seerScore s)
    (if String_includes content "女巫" || String_includes content "药"
     then (witchScore s + 0.2)%float else witchScore s)
    (if String_includes content "我是村民" || String_includes content "好人"
     then (villagerScore s + 0.1)%float else villagerScore s).

(** The test [profile && profile.contradictions.length > 1]. *)
Definition has_contradictions (playerId : PlayerId) (st : State) : bool :=
  match Map_get playerId (playerProfiles st) with
  | Some profile => 1 <? Z.of_nat (List.length (contradictions profile))
  | None => false
  end.

Record Deduction : Type := mkDeduction {
  role : Role;
  ded_confidence : float
}.

Definition analyzePlayerRole `{Externals} (playerId : PlayerId)
  (allSpeeches : AllSpeeches) (allVotes : AllVotes) (st : State)
  : Deduction :=
  let s := fold_left score_speech (speeches_of playerId allSpeeches)
             (mkScores 0 0 0 0) in
  let werewolf := if has_contradictions playerId st
                  then (werewolfScore s + 0.3)%float
                  else werewolfScore s in
  let scores := [(WEREWOLF, werewolf); (SEER, seerScore s);
                 (WITCH, witchScore s); (VILLAGER, villagerScore s)] in
  let bestGuess := hd (WEREWOLF, werewolf) (sort_desc snd scores) in
  mkDeduction (fst bestGuess) (Math_min (snd bestGuess) 0.8%float).

(** Body of the loop over alive players: the deductions so far and the
    instance. *)
Definition deduce_player `{Externals} (allSpeeches : AllSpeeches)
  (allVotes : AllVotes) (acc : list (PlayerId * Deduction) * State)
  (player : PlayerInfo) : list (PlayerId * Deduction) * State :=
  let (roleDeductions, st) := acc in
  if id player =? myPlayerId (gameContext st) then acc
  else
    let guess := analyzePlayerRole (id player) allSpeeches allVotes st in
    if (0.3 <? ded_confidence guess)%float
    then (Map_set (id player) guess roleDeductions,
          addMemory
            (mkParams role_deduction (Some (id player))
               ("推断角色: " ++ Role_toString (role guess)
                ++ " (置信度: " ++ Number_toString (ded_confidence guess)
                ++ ")")
               (ded_confidence guess) 0.9%float deduction)
            st)
    else acc.

Definition deduceRoles `{Externals} (alivePlayers : list PlayerInfo)
  (allSpeeches : AllSpeeches) (allVotes : AllVotes) (st : State)
  : list (PlayerId * Deduction) * State :=
  fold_left (deduce_player allSpeeches allVotes) alivePlayers ([], st).

(** *** [generateStrategy] *)

Definition getRelevantMemories (phase : GamePhase) (st : State)
  : list AIMemoryEntry :=
  sort_desc importance
    (filter
       (fun m =>
          if 3 <? currentRound (gameContext st) - mem_round m then false
          else (0.5 <? relevance m)%float && (0.4 <? confidence m)%float)
       (memories st)).

Definition getPlayerAnalysis (st : State)
  : list (PlayerId * PlayerProfile) :=
  playerProfiles st.

Record Strategy : Type := mkStrategy {
  primaryStrategy : string;
  strategy_reasoning : string;
  targetPlayers : list PlayerId;
  riskLevel : Level
}.

(** [context] of [generateStrategy]. *)
Record StrategyContext : Type := mkStrategyContext {
  sc_currentPhase : GamePhase;
  sc_alivePlayers : list PlayerInfo;
  sc_allSpeeches : AllSpeeches;
  sc_allVotes : AllVotes
}.

Definition Role_eqb (a b : Role) : bool :=
  match a, b with
  | WEREWOLF, WEREWOLF | SEER, SEER | WITCH, WITCH
  | VILLAGER, VILLAGER => true
  | _, _ => false
  end.

(** [profile.suspectedRole === r] *)
Definition suspected_as (r : Role) (profile : PlayerProfile) : bool :=
  match suspectedRole profile with
  | Some r' => Role_eqb r' r
  | None => false
  end.

(** [players.get(id)?.suspectedRole === r] *)
Definition suspected (r : Role) (players : list (PlayerId * PlayerProfile))
  (playerId : PlayerId) : bool :=
  match Map_get playerId players with
  | Some profile => suspected_as r profile
  | None => false
  end.

Definition generateWerewolfStrategy (context : StrategyContext)
  (memories : list AIMemoryEntry)
  (players : list (PlayerId * PlayerProfile)) : Strategy :=
  mkStrategy "伪装村民，寻找神职目标" "作为狼人需要隐藏身份并消除威胁"
    (slice0 2
       (filter (fun p => suspected SEER players p || suspected WITCH players p)
          (Map_keys players)))
    medium.

Definition generateSeerStrategy (context : StrategyContext)
  (memories : list AIMemoryEntry)
  (players : list (PlayerId * PlayerProfile)) : Strategy :=
  mkStrategy "适时公布查验结果，引导投票"
    "作为预言家需要在保护自己的同时传达信息"
    (slice0 2 (filter (suspected WEREWOLF players) (Map_keys players)))
    high.

Definition generateWitchStrategy (context : StrategyContext)
  (memories : list AIMemoryEntry)
  (players : list (PlayerId * PlayerProfile)) : Strategy :=
  mkStrategy "隐藏身份，关键时刻使用药水" "作为女巫需要在合适时机使用能力"
    [] low.

Definition generateVillagerStrategy (context : StrategyContext)
  (memories : list AIMemoryEntry)
  (players : list (PlayerId * PlayerProfile)) : Strategy :=
  mkStrategy "分析发言，寻找逻辑漏洞" "作为村民需要通过逻辑分析找出狼人"
    (slice0 2
       (filter
          (fun p =>
             match Map_get p players with
             | Some player =>
                 1 <? Z.of_nat (List.length (contradictions player))
             | None => false
             end)
          (Map_keys players)))
    low.

Definition generateStrategy `{Externals} (context : StrategyContext)
  (st : State) : Strategy * State :=
  let relevantMemories := getRelevantMemories (sc_currentPhase context) st in
  let playerAnalysis := getPlayerAnalysis st in
  let chosen :=
    match myRole (gameContext st) with
    | WEREWOLF =>
        generateWerewolfStrategy context relevantMemories playerAnalysis
    | SEER => generateSeerStrategy context relevantMemories playerAnalysis
    | WITCH => generateWitchStrategy context relevantMemories playerAnalysis
    | VILLAGER =>
        generateVillagerStrategy context relevantMemories playerAnalysis
    end in
  (chosen,
   addMemory
     (mkParams strategy None
        ("策略: " ++ primaryStrategy chosen ++ " | 理由: "
         ++ strategy_reasoning chosen)
        0.7%float 1.0%float deduction)
     st).

(** *** [getMemorySummary] *)

Definition newline : string := String (ascii_of_nat 10) EmptyString.

Definition summary_line `{Externals} (memory : AIMemoryEntry) : string :=
  "第" ++ Z_toString (mem_round memory) ++ "轮: " ++ mem_content memory
  ++ " (置信度: " ++ rounded_toString (confidence memory * 100)%float ++ "%)".

(** [filter] builds a fresh array, which [sort] then orders in place:
    [this.memories] is not touched, and the instance comes back as it
    was.  [maxEntries] is [None] when the argument is left out. *)
Definition getMemorySummary `{Externals} (maxEntries : option Z)
  (st : State) : string * State :=
  let n := match maxEntries with Some n => n | None => 10 end in
  let importantMemories :=
    slice0 n
      (sort_desc importance
         (filter
            (fun m => (0.6 <? relevance m)%float
                      && (0.5 <? confidence m)%float)
            (memories st))) in
  (if Nat.eqb (List.length importantMemories) 0 then "暂无重要记忆信息。"
   else "重要记忆信息:" ++ newline
        ++ join newline (map summary_line importantMemories),
   st).

(** *** [getThreatAssessment] *)

Record Threat : Type := mkThreat {
  threat_playerId : PlayerId;
  threatLevel : float;
  threat_reason : string
}.

(** The test [profile.contradictions.length > 2]. *)
Definition speech_inconsistent (profile : PlayerProfile) : bool :=
  2 <? Z.of_nat (List.length (contradictions profile)).

Definition option_id_eqb (a : option PlayerId) (b : PlayerId) : bool :=
  match a with Some x => x =? b | None => false end.

Definition is_vote_pattern (t : MemoryType) : bool :=
  match t with vote_pattern => true | _ => false end.

(** Body of the loop over the profiles. *)
Definition assess_profile (st : State) (threats : list Threat)
  (entry : PlayerId * PlayerProfile) : list Threat :=
  let (playerId, profile) := entry in
  if playerId =? myPlayerId (gameContext st) then threats
  else
    let t0 := (0%float, @nil string) in
    let t1 :=
      if suspected_as WEREWOLF profile
         && negb (Role_eqb (myRole (gameContext st)) WEREWOLF)
      then ((fst t0 + 0.8)%float, push (snd t0) "疑似狼人") else t0 in
    let t2 :=
      if speech_inconsistent profile
      then ((fst t1 + 0.3)%float, push (snd t1) "发言矛盾") else t1 in
    let votingMemories :=
      filter
        (fun m => is_vote_pattern (mem_type m)
                  && option_id_eqb (mem_playerId m) playerId)
        (memories st) in
    let t3 :=
      if some (fun m => String_includes (mem_content m) "可疑")
           votingMemories
      then ((fst t2 + 0.2)%float, push (snd t2) "投票行为可疑") else t2 in
    if (0.3 <? fst t3)%float
    then push threats
           (mkThreat playerId (Math_min (fst t3) 1.0%float)
              (join ", " (snd t3)))
    else threats.

Definition getThreatAssessment (st : State) : list Threat * State :=
  (sort_desc threatLevel
     (fold_left (assess_profile st) (playerProfiles st) []),
   st).

(** *** The states an instance can be in *)

(** A call of a public method. *)
Inductive Call : Type :=
| call_updateGameContext (round : Round) (phase : GamePhase)
| call_analyzeSpeech (speech : Speech) (allSpeeches : AllSpeeches)
    (alivePlayers : list PlayerInfo)
| call_analyzeVotingPattern (votes : list Vote) (allVotes : AllVotes)
    (alivePlayers : list PlayerInfo)
| call_deduceRoles (alivePlayers : list PlayerInfo)
    (allSpeeches : AllSpeeches) (allVotes : AllVotes)
| call_generateStrategy (context : StrategyContext)
| call_getMemorySummary (maxEntries : option Z)
| call_getThreatAssessment.

(** The instance after a call. *)
Definition step `{Externals} (c : Call) (st : State) : State :=
  match c with
  | call_updateGameContext round phase => updateGameContext round phase st
  | call_analyzeSpeech speech allSpeeches alivePlayers =>
      analyzeSpeech speech allSpeeches alivePlayers st
  | call_analyzeVotingPattern votes allVotes alivePlayers =>
      analyzeVotingPattern votes allVotes alivePlayers st
  | call_deduceRoles alivePlayers allSpeeches allVotes =>
      snd (deduceRoles alivePlayers allSpeeches allVotes st)
  | call_generateStrategy context => snd (generateStrategy context st)
  | call_getMemorySummary maxEntries => snd (getMemorySummary maxEntries st)
  | call_getThreatAssessment => snd (getThreatAssessment st)
  end.

(** The instance after a sequence of calls on a fresh instance. *)
Definition run `{Externals} (myRole : Role) (myPlayerId : PlayerId)
  (teammates : option (list PlayerId)) (calls : list Call) : State :=
  fold_left (fun st c => step c st) calls (new myRole myPlayerId teammates).

Inductive reachable `{Externals} : State -> Prop :=
| reachable_new myRole myPlayerId teammates :
    reachable (new myRole myPlayerId teammates)
| reachable_step c st : reachable st -> reachable (step c st).

End AIMemorySystem.

Module Comm := WerewolfCommunicationSystem.
Module Mem := AIMemorySystem.

(** ** Class [PlayerServer]: the caller of the coordination engine

    Of the class, the fields that [startGame] sets and
    [werewolfCommunicate] reads.  Logging and telemetry, which write no
    field, are left out. *)

Module PlayerServer.

(** Modelled from the spec: the game-state snapshot [PlayerContext] of
    [@ai-werewolf/types], by the fields the callers read. *)
Record PlayerContext : Type := mkPlayerContext {
  pc_round : Round;
  pc_currentPhase : GamePhase;
  pc_alivePlayers : list PlayerInfo;
  pc_allSpeeches : AllSpeeches;
  pc_allVotes : AllVotes
}.

(** Modelled from the spec: [StartGameParams] of [@ai-werewolf/types]. *)
Record StartGameParams : Type := mkStartGameParams {
  sg_gameId : string;
  sg_role : Role;
  sg_teammates : option (list PlayerId);
  sg_playerId : PlayerId
}.

(** The fields of a started game.  [werewolfComm] is assigned only when the
    role is the wolf's, and never cleared. *)
Record Game : Type := mkGame {
  gameId : string;
  playerId : PlayerId;
  role : Role;
  teammates : option (list PlayerId);
  aiMemory : Mem.State;
  werewolfComm : option Comm.State
}.

(** The instance: [None] until [startGame] has run, when every field is
    still [undefined]. *)
Definition State : Type := option Game.

Definition new : State := None.

Definition is_werewolf (r : Role) : bool :=
  match r with WEREWOLF => true | _ => false end.

Definition startGame (params : StartGameParams) (s : State) : State :=
  Some
    (mkGame (sg_gameId params) (sg_playerId params) (sg_role params)
       (sg_teammates params)
       (Mem.new (sg_role params) (sg_playerId params) (sg_teammates params))
       (if is_werewolf (sg_role params) then Some Comm.new
        else match s with
             | Some g => werewolfComm g
             | None => None
             end)).

Record CommunicationResult : Type := mkResult {
  res_messageType : Comm.MessageType;
  res_content : string;
  res_suggestedTarget : option PlayerId
}.

(** The context [werewolfCommunicate] builds from the snapshot. *)
Definition werewolfContext `{Externals} (g : Game) (context : PlayerContext)
  : Comm.WerewolfCommunicationContext :=
  let team := match teammates g with Some t => t | None => [] end in
  Comm.mkContext (pc_round context) (pc_alivePlayers context) team
    (filter
       (fun i =>
          some (fun p => (id p =? i) && isAlive p) (pc_alivePlayers context))
       team)
    (map id
       (filter
          (fun p =>
             isAlive p
             && negb (match teammates g with
                      | Some t => includes (id p) t
                      | None => false
                      end)
             && negb (id p =? playerId g))
          (pc_alivePlayers context)))
    (fst (Mem.getMemorySummary None (aiMemory g)))
    medium.

Definition werewolfCommunicate `{Externals} (context : PlayerContext)
  (s : State) : Completion CommunicationResult * State :=
  match s with
  | None => (Throw "只有狼人才能使用对话功能", s)
  | Some g =>
      match werewolfComm g with
      | Some comm =>
          if negb (is_werewolf (role g))
          then (Throw "只有狼人才能使用对话功能", s)
          else
            let memory := snd (Mem.getMemorySummary None (aiMemory g)) in
            let (communication, comm') :=
              Comm.generateWerewolfCommunication (playerId g)
                (werewolfContext g context) (pc_allSpeeches context)
                (pc_allVotes context) comm in
            (Normal
               (mkResult (Comm.messageType communication)
                  (Comm.comm_content communication)
                  (Comm.comm_suggestedTarget communication)),
             Some
               (mkGame (gameId g) (playerId g) (role g) (teammates g) memory
                  (Some comm')))
      | None => (Throw "只有狼人才能使用对话功能", s)
      end
  end.

End PlayerServer.

(** ** A host to run the model on examples

    Lower-casing of the ASCII letters (which is what [toLowerCase] does to
    text whose only cased letters are ASCII; CJK text has no case), a clock
    that advances by one per reading, a constant random tag, and a
    placeholder where a fraction is printed. *)

Definition ascii_toLowerCase (c : ascii) : ascii :=
  let n := nat_of_ascii c in
  if (Nat.leb 65 n && Nat.leb n 90)%bool then ascii_of_nat (n + 32) else c.

Fixpoint string_toLowerCase (s : string) : string :=
  match s with
  | EmptyString => EmptyString
  | String c s' => String (ascii_toLowerCase c) (string_toLowerCase s')
  end.

#[export] Instance example_host : Externals := {|
  toLowerCase := string_toLowerCase;
  Number_toString := fun _ => "<number>";
  Date_now := fun n => 1700000000000 + Z.of_nat n;
  Math_random_tag := fun _ => "k3j9x0q2m";
  Role_toString := fun r =>
    match r with
    | WEREWOLF => "werewolf"
    | SEER => "seer"
    | WITCH => "witch"
    | VILLAGER => "villager"
    end
|}.

(** ** Vocabulary of the statements *)

(** A comparison result that is not [Gt]. *)
Definition le_cmp (c : comparison) : bool :=
  match c with Gt => false | _ => true end.

(** Membership of the closed interval [[0, 1]]. *)
Definition in01 (x : float) : bool := ((0 <=? x) && (x <=? 1))%float.

(** Order of a list sorted by descending key: no element has a strictly
    smaller key than its successor ([not_below]); the key of an earlier
    element is at least that of a later one ([at_least]), which says more
    only when no key is [NaN] ([key_defined]). *)
Definition not_below {A} (key : A -> float) (a b : A) : Prop :=
  (key a <? key b)%float = false.

Definition at_least {A} (key : A -> float) (a b : A) : Prop :=
  (key b <=? key a)%float = true.

Definition key_defined {A} (key : A -> float) (a : A) : Prop :=
  is_nan (key a) = false.

(** The votes the analysis holds for a target ([0] when it has none), and
    the number of suggestions that name a target. *)
Definition votes_of (t : PlayerId)
  (analysis : list (PlayerId * Comm.TargetData)) : Z :=
  match Map_get t analysis with Some d => Comm.votes d | None => 0 end.

Definition suggestions_for (t : PlayerId)
  (suggestions : list Comm.MemberSuggestion) : Z :=
  Z.of_nat
    (List.length (filter (fun s => Comm.suggestedTarget s =? t) suggestions)).

(** The speeches of all rounds in the order the scans enumerate them. *)
Definition all_speeches (allSpeeches : AllSpeeches) : list Speech :=
  List.concat (Object_values allSpeeches).

(** A text with a seer or a witch marker, and a speech of a player outside
    the wolf team whose lower-cased text has one. *)
Definition god_marker (content : string) : bool :=
  Comm.seer_marker content || Comm.witch_marker content.

Definition reveals_god_role `{Externals}
  (context : Comm.WerewolfCommunicationContext) (speech : Speech) : bool :=
  negb (includes (speech_playerId speech) (Comm.werewolfTeam context))
  && god_marker (toLowerCase (speech_content speech)).

(** Scores of an entry, of the arguments of an insertion and of a profile
    inside [[0, 1]]; a profile without recorded contradictions. *)
Definition entry_in_range (m : Mem.AIMemoryEntry) : Prop :=
  in01 (Mem.confidence m) = true /\ in01 (Mem.relevance m) = true.

Definition params_in_range (p : Mem.MemoryParams) : Prop :=
  in01 (Mem.p_confidence p) = true /\ in01 (Mem.p_relevance p) = true.

Definition profile_in_range (kv : PlayerId * Mem.PlayerProfile) : Prop :=
  in01 (Mem.profile_confidence (snd kv)) = true.

Definition profile_clean (kv : PlayerId * Mem.PlayerProfile) : Prop :=
  Mem.contradictions (snd kv) = [].

(** What every state of an instance satisfies. *)
Definition sound (st : Mem.State) : Prop :=
  (List.length (Mem.memories st) <= 100)%nat
  /\ Forall entry_in_range (Mem.memories st)
  /\ Forall profile_in_range (Mem.playerProfiles st)
  /\ Forall profile_clean (Mem.playerProfiles st).

Definition pattern_in_range (p : Mem.VotingPattern) : Prop :=
  in01 (Mem.pattern_confidence p) = true.

Definition deduction_in_range (kv : PlayerId * Mem.Deduction) : Prop :=
  in01 (Mem.ded_confidence (snd kv)) = true.

Definition threat_in_range (t : Mem.Threat) : Prop :=
  in01 (Mem.threatLevel t) = true.

(** Case analysis on every comparison of exponents and mantissas that a
    goal about [SFcompare] shows. *)
Ltac cmp_cases :=
  rewrite ?Pos.compare_cont_spec; simpl;
  repeat match goal with
  | |- context [(?a ?= ?b)%Z] =>
      destruct (Z.compare_spec a b); subst; simpl
  | |- context [(?a ?= ?b)%positive] =>
      destruct (Pos.compare_spec a b); subst; simpl
  end;
  intros; try discriminate; try reflexivity; try lia.

(** The calls that only read the instance. *)
Definition read_only (c : Mem.Call) : Prop :=
  match c with
  | Mem.call_getMemorySummary _ | Mem.call_getThreatAssessment => True
  | _ => False
  end.



(** ** Vocabulary of the further statements *)

(** The bucket of a round in a history, empty when the round has none. *)
Definition bucket_of (r : Round)
  (history : list (Round * list Comm.WerewolfMessage))
  : list Comm.WerewolfMessage :=
  match Map_get r history with Some b => b | None => [] end.

Definition of_round (r : Round) (m : Comm.WerewolfMessage) : bool :=
  Comm.msg_round m =? r.

(** The history holds, round by round, the logged messages of the round. *)
Definition history_in_step (st : Comm.State) : Prop :=
  forall r,
    bucket_of r (Comm.communicationHistory st)
    = filter (of_round r) (Comm.messages st).

(** The message that [addMessage] builds. *)
Definition logged_message `{Externals} (sender : PlayerId) (content : string)
  (round : Round) (type : Comm.MessageType) (st : Comm.State)
  : Comm.WerewolfMessage :=
  Comm.mkMessage
    ("werewolf_msg_" ++ Z_toString (Date_now (Comm.readings st)) ++ "_"
     ++ Math_random_tag (S (Comm.readings st)))
    sender content (Date_now (S (S (Comm.readings st)))) round type.

(** A player outside the wolf team. *)
Definition outsider (context : Comm.WerewolfCommunicationContext)
  (p : PlayerId) : Prop :=
  includes p (Comm.werewolfTeam context) = false.

(** A speech of an outsider that voices suspicion and names a wolf by
    number. *)
Definition accuses `{Externals}
  (context : Comm.WerewolfCommunicationContext) (speech : Speech) : bool :=
  negb (includes (speech_playerId speech) (Comm.werewolfTeam context))
  && Comm.suspicion_marker (toLowerCase (speech_content speech))
  && existsb
       (fun w =>
          String_includes (toLowerCase (speech_content speech))
            (Z_toString w))
       (Comm.werewolfTeam context).

(** The votes of all rounds in the order the scans enumerate them, and a
    vote cast against a member of the wolf team. *)
Definition all_votes (allVotes : AllVotes) : list Vote :=
  List.concat (Object_values allVotes).

Definition against_team (context : Comm.WerewolfCommunicationContext)
  (v : Vote) : bool :=
  includes (targetId v) (Comm.werewolfTeam context).

(** A listed player that the scan of the situation counts as a safe
    target when nobody revealed a god role: outside the wolf team, and
    never the caster of a vote against a member of it. *)
Definition voted_against_team
  (context : Comm.WerewolfCommunicationContext) (allVotes : AllVotes)
  (p : PlayerId) : bool :=
  existsb (fun v => against_team context v && (voterId v =? p))
    (all_votes allVotes).

Definition safe_target (context : Comm.WerewolfCommunicationContext)
  (allVotes : AllVotes) (player : PlayerInfo) : bool :=
  negb (includes (id player) (Comm.werewolfTeam context))
  && negb (voted_against_team context allVotes (id player)).

(** The suggestions that name a target. *)
Definition naming (t : PlayerId) (suggestions : list Comm.MemberSuggestion)
  : list Comm.MemberSuggestion :=
  filter (fun s => Comm.suggestedTarget s =? t) suggestions.

(** What the first loop of [analyzeTargetSuggestions] does to the entry of
    the target a suggestion names, and the entry it starts from. *)
Definition tally (d : Comm.TargetData) (s : Comm.MemberSuggestion)
  : Comm.TargetData :=
  Comm.mkTargetData (Comm.votes d + 1)
    (Comm.totalPriority d + Comm.sug_priority s)%float
    (push (Comm.reasons d) (Comm.sug_reason s)) (Comm.riskLevel d).

Definition fresh_entry : Comm.TargetData :=
  Comm.mkTargetData 0 0%float [] 0%float.

(** The wolf that [generateIndividualStrategy] treats as the leader. *)
Definition leads (context : Comm.WerewolfCommunicationContext)
  (w : PlayerId) : bool :=
  match hd_error (Comm.aliveWerewolves context) with
  | Some leader => w =? leader
  | None => false
  end.

(** A profile as [updatePlayerProfile] creates it, whatever behaviours it
    has gathered since: filed under its own player, no suspected role,
    confidence [0], no alliances and no threats. *)
Definition profile_fresh (kv : PlayerId * Mem.PlayerProfile) : Prop :=
  Mem.profile_playerId (snd kv) = fst kv
  /\ Mem.suspectedRole (snd kv) = None
  /\ Mem.profile_confidence (snd kv) = 0%float
  /\ Mem.alliances (snd kv) = []
  /\ Mem.threats (snd kv) = [].

(** The profiles of an instance: one per player, each of them fresh and
    without contradictions. *)
Definition tidy (st : Mem.State) : Prop :=
  NoDup (Map_keys (Mem.playerProfiles st))
  /\ Forall profile_fresh (Mem.playerProfiles st)
  /\ Forall profile_clean (Mem.playerProfiles st).

(** The votes a player cast, over all rounds. *)
Definition cast_by (p : PlayerId) (allVotes : AllVotes) : list Vote :=
  filter (fun v => voterId v =? p) (all_votes allVotes).

(** A lower-cased speech on one of the three topics that earn both a
    keyword and relevance: werewolves, the seer, the witch. *)
Definition core_topic (content : string) : bool :=
  (String_includes content "狼人" || String_includes content "杀")
  || (String_includes content "预言家" || String_includes content "查验")
  || (String_includes content "女巫" || String_includes content "药").

(** The test of [getMemorySummary] for an entry worth reporting. *)
Definition worth_reporting (relevance confidence : float) : bool :=
  ((0.6 <? relevance) && (0.5 <? confidence))%float.

(** * Properties *)

(** ** The order of binary64 numbers

    [SFcompare] is the comparison the axioms of the primitive floats refer
    to; it is a total preorder away from [NaN]. *)

Section FloatOrder.

Lemma SFcompare_antisym a b c :
  SFcompare a b = Some c -> SFcompare b a = Some (CompOpp c).
Proof.
  destruct a as [sa|sa| |sa ma ea], b as [sb|sb| |sb mb eb]; simpl;
    try discriminate; intros E; injection E as <-;
    try (destruct sa; reflexivity); try (destruct sb; reflexivity);
    try (destruct sa, sb; reflexivity).
  destruct sa, sb; try reflexivity; cmp_cases.
Qed.

Lemma SFcompare_trans a b c c1 c2 :
  SFcompare a b = Some c1 -> SFcompare b c = Some c2 ->
  le_cmp c1 = true -> le_cmp c2 = true ->
  SFcompare a c = Some (match c1, c2 with Eq, Eq => Eq | _, _ => Lt end).
Proof.
  destruct a as [sa|sa| |sa ma ea], b as [sb|sb| |sb mb eb],
    c as [sc|sc| |sc mc ec]; simpl; try discriminate;
    intros E1 E2; injection E1 as <-; injection E2 as <-;
    try destruct sa; try destruct sb; try destruct sc; simpl;
    try discriminate; try reflexivity; cmp_cases.
Qed.

Lemma SFcompare_refl a : a <> S754_nan -> SFcompare a a = Some Eq.
Proof.
  destruct a as [s|s| |s m e]; simpl; try congruence;
    destruct s; try reflexivity; intros _;
    rewrite Z.compare_refl, Pos.compare_cont_refl; reflexivity.
Qed.

Lemma SFcompare_None a b :
  SFcompare a b = None -> a = S754_nan \/ b = S754_nan.
Proof.
  destruct a, b; simpl; try discriminate; auto.
Qed.

#[local] Open Scope float_scope.

Lemma ltb_true x y :
  (x <? y) = true <-> SFcompare (Prim2SF x) (Prim2SF y) = Some Lt.
Proof.
  rewrite FloatAxioms.ltb_spec. unfold SFltb.
  destruct (SFcompare _ _) as [[]|]; split; congruence.
Qed.

Lemma leb_true x y :
  (x <=? y) = true <->
  exists c, SFcompare (Prim2SF x) (Prim2SF y) = Some c /\ le_cmp c = true.
Proof.
  rewrite FloatAxioms.leb_spec. unfold SFleb.
  destruct (SFcompare _ _) as [[]|]; split; intros H;
    try (eexists; split; [reflexivity|reflexivity]);
    try reflexivity; try discriminate;
    destruct H as (c & E & L); try discriminate;
    injection E as <-; discriminate.
Qed.

Lemma is_nan_false x : is_nan x = false <-> Prim2SF x <> S754_nan.
Proof.
  unfold is_nan. rewrite FloatAxioms.eqb_spec. unfold SFeqb. split.
  - intros E N. rewrite N in E. discriminate.
  - intros N. rewrite SFcompare_refl by exact N. reflexivity.
Qed.

Lemma ltb_not_nan x y :
  (x <? y) = true -> is_nan x = false /\ is_nan y = false.
Proof.
  rewrite ltb_true, !is_nan_false. intros E.
  split; intros N; rewrite N in E; simpl in E;
    try discriminate; destruct (Prim2SF x); discriminate.
Qed.

Lemma ltb_asym x y : (x <? y) = true -> (y <? x) = false.
Proof.
  rewrite ltb_true. intros E. apply SFcompare_antisym in E.
  rewrite FloatAxioms.ltb_spec. unfold SFltb. rewrite E. reflexivity.
Qed.

Lemma ltb_leb x y : (x <? y) = true -> (x <=? y) = true.
Proof.
  rewrite ltb_true, leb_true. intros E. exists Lt. auto.
Qed.

Lemma leb_refl x : is_nan x = false -> (x <=? x) = true.
Proof.
  rewrite is_nan_false, leb_true. intros N. exists Eq.
  split; [apply SFcompare_refl; exact N | reflexivity].
Qed.

Lemma leb_trans x y z :
  (x <=? y) = true -> (y <=? z) = true -> (x <=? z) = true.
Proof.
  rewrite !leb_true. intros (c1 & E1 & L1) (c2 & E2 & L2).
  eexists. split; [eapply SFcompare_trans; eassumption|].
  destruct c1, c2; reflexivity.
Qed.

Lemma ltb_leb_trans x y z :
  (x <? y) = true -> (y <=? z) = true -> (x <? z) = true.
Proof.
  rewrite !ltb_true, leb_true. intros E1 (c2 & E2 & L2).
  rewrite (SFcompare_trans _ _ _ _ _ E1 E2 eq_refl L2). reflexivity.
Qed.

Lemma leb_ltb_trans x y z :
  (x <=? y) = true -> (y <? z) = true -> (x <? z) = true.
Proof.
  rewrite !ltb_true, leb_true. intros (c1 & E1 & L1) E2.
  rewrite (SFcompare_trans _ _ _ _ _ E1 E2 L1 eq_refl).
  destruct c1; reflexivity.
Qed.

Lemma not_ltb_leb x y :
  is_nan x = false -> is_nan y = false -> (x <? y) = false ->
  (y <=? x) = true.
Proof.
  rewrite !is_nan_false, leb_true. intros Nx Ny L.
  destruct (SFcompare (Prim2SF x) (Prim2SF y)) as [c|] eqn:E.
  - exists (CompOpp c). split; [apply SFcompare_antisym; exact E|].
    destruct c; try reflexivity.
    apply ltb_true in E. congruence.
  - apply SFcompare_None in E. tauto.
Qed.

End FloatOrder.

(** ** Products of numbers of the unit interval

    The product of two numbers of [[0, 1]] is a number: rounding a
    non-negative mantissa never yields [NaN]. *)

Section FloatProduct.

Lemma shr_1_nonneg mrs : 0 <= shr_m mrs -> 0 <= shr_m (shr_1 mrs).
Proof.
  destruct mrs as [m r s]. simpl.
  destruct m as [|p|p]; simpl; try lia; destruct p; simpl; lia.
Qed.

Lemma iter_shr_1_nonneg p mrs :
  0 <= shr_m mrs -> 0 <= shr_m (SpecFloat.iter_pos shr_1 p mrs).
Proof.
  revert mrs. induction p as [p IH|p IH|]; intros mrs N; simpl.
  - apply IH, IH, shr_1_nonneg, N.
  - apply IH, IH, N.
  - apply shr_1_nonneg, N.
Qed.

Lemma shr_fexp_nonneg prec emax m e l :
  0 <= m -> 0 <= shr_m (fst (shr_fexp prec emax m e l)).
Proof.
  intros N. unfold shr_fexp, shr.
  assert (R : 0 <= shr_m (shr_record_of_loc m l))
    by (destruct l as [|[]]; exact N).
  destruct (_ - e); simpl; try exact R.
  apply iter_shr_1_nonneg, R.
Qed.

Lemma round_nearest_even_nonneg m l : 0 <= m -> 0 <= round_nearest_even m l.
Proof.
  intros N. unfold round_nearest_even.
  destruct l as [|[]]; try lia. destruct (Z.even m); lia.
Qed.

Lemma binary_round_aux_defined prec emax s m e l :
  0 <= m -> binary_round_aux prec emax s m e l <> S754_nan.
Proof.
  intros N. unfold binary_round_aux.
  pose proof (shr_fexp_nonneg prec emax m e l N) as N1.
  destruct (shr_fexp prec emax m e l) as [mrs' e']. simpl in N1.
  pose proof (shr_fexp_nonneg prec emax _ e' loc_Exact
                (round_nearest_even_nonneg _ (loc_of_shr_record mrs') N1))
    as N2.
  destruct (shr_fexp prec emax _ e' loc_Exact) as [mrs'' e'']. simpl in N2.
  destruct (shr_m mrs''); try lia; try discriminate.
  destruct (_ <=? _); discriminate.
Qed.

Lemma in01_finite x :
  in01 x = true ->
  exists s, Prim2SF x = S754_zero s \/ exists m e, Prim2SF x = S754_finite s m e.
Proof.
  unfold in01. intros I. apply andb_true_iff in I as [L U].
  rewrite FloatAxioms.leb_spec in L, U. unfold SFleb in L, U.
  destruct (Prim2SF x) as [s|s| |s m e]; eauto.
  - destruct s; vm_compute in L, U; discriminate.
  - vm_compute in L. discriminate.
Qed.

Lemma mul_in01_defined x y :
  in01 x = true -> in01 y = true -> is_nan (x * y)%float = false.
Proof.
  intros X Y. apply is_nan_false. rewrite FloatAxioms.mul_spec.
  destruct (in01_finite x X) as (sx & [Ex|(mx & ex & Ex)]);
    destruct (in01_finite y Y) as (sy & [Ey|(my & ey & Ey)]);
    rewrite Ex, Ey; unfold SF64mul, SFmul; try discriminate.
  apply binary_round_aux_defined. lia.
Qed.

End FloatProduct.

(** ** [Math.min] *)

Section MathMin.
#[local] Open Scope float_scope.

Lemma Math_min_not_nan x y :
  is_nan x = false -> is_nan y = false -> is_nan (Math_min x y) = false.
Proof.
  intros Nx Ny. unfold Math_min. rewrite Nx, Ny. simpl.
  destruct (x <? y); [exact Nx|].
  destruct (y <? x); [exact Ny|].
  destruct (get_sign x); assumption.
Qed.

Lemma Math_min_args x y :
  is_nan (Math_min x y) = false -> is_nan x = false /\ is_nan y = false.
Proof.
  unfold Math_min. destruct (is_nan x), (is_nan y); simpl; auto;
    intros E; vm_compute in E; discriminate.
Qed.

Lemma Math_min_le_r x y :
  is_nan (Math_min x y) = false -> (Math_min x y <=? y) = true.
Proof.
  intros N. destruct (Math_min_args _ _ N) as [Nx Ny].
  unfold Math_min. rewrite Nx, Ny. simpl.
  destruct (x <? y) eqn:L1; [apply ltb_leb; exact L1|].
  destruct (y <? x) eqn:L2; [apply leb_refl; exact Ny|].
  destruct (get_sign x); [|apply leb_refl; exact Ny].
  apply not_ltb_leb; assumption.
Qed.

Lemma Math_min_ge z x y :
  is_nan x = false -> is_nan y = false ->
  (z <=? x) = true -> (z <=? y) = true -> (z <=? Math_min x y) = true.
Proof.
  intros Nx Ny Hx Hy. unfold Math_min. rewrite Nx, Ny. simpl.
  destruct (x <? y); [exact Hx|].
  destruct (y <? x); [exact Hy|].
  destruct (get_sign x); assumption.
Qed.

(** A number above 0.3 clamped from above by a constant of [[0, 1]] lies
    in [[0, 1]]. *)
Lemma clamp_in01 x c :
  (0.3 <? x) = true -> in01 c = true -> in01 (Math_min x c) = true.
Proof.
  intros L C. unfold in01 in *. apply andb_true_iff in C as [C0 C1].
  destruct (ltb_not_nan _ _ L) as [_ Nx].
  assert (Nc : is_nan c = false).
  { apply leb_true in C1 as (k & E & _). apply is_nan_false. intros N.
    rewrite N in E. discriminate. }
  apply andb_true_iff. split.
  - apply Math_min_ge; try assumption.
    apply ltb_leb. eapply leb_ltb_trans; [|exact L]. reflexivity.
  - eapply leb_trans; [|exact C1].
    apply Math_min_le_r. apply Math_min_not_nan; assumption.
Qed.

(** The same when the clamped number, not its argument, is known to
    exceed 0.3. *)
Lemma clamped_in01 x c :
  (0.3 <? Math_min x c) = true -> in01 c = true ->
  in01 (Math_min x c) = true.
Proof.
  intros L C. unfold in01 in *. apply andb_true_iff in C as [C0 C1].
  destruct (ltb_not_nan _ _ L) as [_ N].
  apply andb_true_iff. split.
  - apply ltb_leb. eapply leb_ltb_trans; [|exact L]. reflexivity.
  - eapply leb_trans; [|exact C1]. apply Math_min_le_r. exact N.
Qed.

End MathMin.

(** ** The sort by descending key *)

Section SortDesc.
Context {A : Type} (key : A -> float).
#[local] Open Scope float_scope.

Lemma insert_desc_perm x l : Permutation (insert_desc key x l) (x :: l).
Proof.
  induction l as [|y l IH]; simpl; [reflexivity|].
  destruct (key x <? key y); [|reflexivity].
  rewrite IH. apply perm_swap.
Qed.

Lemma sort_desc_perm l : Permutation (sort_desc key l) l.
Proof.
  induction l as [|x l IH]; simpl; [reflexivity|].
  rewrite insert_desc_perm. constructor. exact IH.
Qed.

Lemma sort_desc_length l : List.length (sort_desc key l) = List.length l.
Proof. apply Permutation_length, sort_desc_perm. Qed.

Lemma insert_desc_sorted x l :
  Sorted (not_below key) l -> Sorted (not_below key) (insert_desc key x l).
Proof.
  induction l as [|y l IH]; simpl; intros S.
  - repeat constructor.
  - destruct (key x <? key y) eqn:L.
    + inversion S as [|? ? S' H']; subst. constructor; [apply IH; exact S'|].
      destruct l as [|z l]; simpl.
      * constructor. apply ltb_asym. exact L.
      * destruct (key x <? key z); constructor.
        -- inversion H'; assumption.
        -- apply ltb_asym. exact L.
    + constructor; [exact S|]. constructor. exact L.
Qed.

Lemma sort_desc_sorted l : Sorted (not_below key) (sort_desc key l).
Proof.
  induction l as [|x l IH]; simpl; [constructor|].
  apply insert_desc_sorted. exact IH.
Qed.

(** Away from [NaN] keys the order is total, and the sorted list is
    ordered pairwise, not only between neighbours. *)

Lemma insert_desc_strongly x l :
  (key_defined key) x -> Forall (key_defined key) l ->
  StronglySorted (at_least key) l -> StronglySorted (at_least key) (insert_desc key x l).
Proof.
  intros Nx. induction l as [|y l IH]; simpl; intros Nl S.
  - repeat constructor.
  - inversion Nl as [|? ? Ny Nl']; subst.
    inversion S as [|? ? S' F']; subst.
    destruct (key x <? key y) eqn:L.
    + constructor; [apply IH; assumption|].
      eapply Permutation_Forall;
        [symmetry; apply insert_desc_perm|].
      constructor; [|exact F']. apply ltb_leb. exact L.
    + assert (Hxy : (at_least key) x y) by (apply not_ltb_leb; assumption).
      constructor; [exact S|]. constructor; [exact Hxy|].
      eapply Forall_impl; [|exact F']. intros z Hz.
      unfold at_least in *. eapply leb_trans; eassumption.
Qed.

Lemma sort_desc_strongly l :
  Forall (key_defined key) l -> StronglySorted (at_least key) (sort_desc key l).
Proof.
  induction l as [|x l IH]; simpl; intros N; [constructor|].
  inversion N; subst. apply insert_desc_strongly; auto.
  eapply Permutation_Forall; [symmetry; apply sort_desc_perm|]. assumption.
Qed.

Lemma StronglySorted_app_inv (r : A -> A -> Prop) l1 l2 :
  StronglySorted r (l1 ++ l2) ->
  forall a b, In a l1 -> In b l2 -> r a b.
Proof.
  induction l1 as [|x l1 IH]; simpl; intros S a b Ha Hb; [contradiction|].
  inversion S as [|? ? S' F]; subst. destruct Ha as [<-|Ha].
  - rewrite Forall_forall in F. apply F. apply in_or_app. right. exact Hb.
  - apply IH; assumption.
Qed.

Lemma Sorted_firstn (r : A -> A -> Prop) n l :
  Sorted r l -> Sorted r (firstn n l).
Proof.
  revert l. induction n as [|n IH]; intros l S; simpl; [constructor|].
  destruct l as [|x l]; [constructor|].
  inversion S as [|? ? S' H]; subst. constructor; [apply IH; exact S'|].
  destruct l as [|y l]; destruct n; simpl; constructor.
  inversion H; assumption.
Qed.

End SortDesc.

(** ** The coordination engine *)

Section Coordination.
Import WerewolfCommunicationSystem.

Lemma truthy_true p : p <> 0 -> truthy p = true.
Proof. unfold truthy. intros N. apply Z.eqb_neq in N. rewrite N. reflexivity. Qed.

(** C6: with no suggestion and the legal candidates [P5, P7], the decision
    names P5, the first candidate, and reports no consensus; the decision is
    also what the instance records. *)
Theorem negotiate_no_suggestion_first_candidate :
  forall round alive team wolves analysis urgency st (p5 p7 : PlayerId),
    p5 <> 0 ->
    exists d,
      negotiateKillTarget
        (mkContext round alive team wolves [p5; p7] analysis urgency) [] st
      = (Normal d,
         mkState (messages st) (push (teamDecisions st) d)
           (communicationHistory st) (readings st))
      /\ targetPlayerId d = p5
      /\ consensus d = false.
Proof.
  intros round alive team wolves analysis urgency st p5 p7 N.
  unfold negotiateKillTarget, makeTeamDecision. simpl.
  rewrite (truthy_true p5 N). simpl.
  eexists. split; [reflexivity|]. split; reflexivity.
Qed.

Lemma negotiate_no_suggestion_first_candidate_example :
  exists d,
    negotiateKillTarget
      (mkContext 2 [mkPlayerInfo 5 true; mkPlayerInfo 7 true] [1; 4] [1; 4]
         [5; 7] "" medium) [] new
    = (Normal d, mkState [] [d] [] 0)
    /\ targetPlayerId d = 5
    /\ consensus d = false.
Proof.
  apply (negotiate_no_suggestion_first_candidate 2
           [mkPlayerInfo 5 true; mkPlayerInfo 7 true] [1; 4] [1; 4] ""
           medium new 5 7).
  lia.
Defined.

(** C4, as the program behaves: with no suggestion, no legal candidate and
    no alive player the call raises, and returns no decision. *)
Lemma negotiate_nothing_to_choose_raises :
  fst (negotiateKillTarget (mkContext 1 [] [] [] [] "" low) [] new)
  = Throw TypeError
  /\ forall d,
       fst (negotiateKillTarget (mkContext 1 [] [] [] [] "" low) [] new)
       <> Normal d.
Proof. split; [reflexivity|]. intros d. discriminate. Qed.

(** C4, amended: the call returns a decision, and records it, whenever
    there is anything to choose from: a target that the scoring selected, a
    first legal candidate, or a first alive player, whatever the other two
    are.  Its target is the selected target; failing that the first legal
    candidate; failing that the first alive player.  Only when all three
    are missing does the last fallback read a property of [undefined]: the
    call then raises a [TypeError] and records nothing.  (A target or a
    candidate counts when its id is not [0], which is how [||] reads
    it.) *)
Theorem negotiate_fallback_chain :
  forall context suggestions st,
    let selected := best_target (analyzeTargetSuggestions suggestions) in
    let candidate := hd_error (targetCandidates context) in
    (truthy_id selected = true \/ truthy_id candidate = true
     \/ alivePlayers context <> [] ->
     exists d,
       negotiateKillTarget context suggestions st
       = (Normal d,
          mkState (messages st) (push (teamDecisions st) d)
            (communicationHistory st) (readings st))
       /\ (forall t, selected = Some t -> t <> 0 -> targetPlayerId d = t)
       /\ (truthy_id selected = false ->
           forall c, candidate = Some c -> c <> 0 -> targetPlayerId d = c)
       /\ (truthy_id selected = false -> truthy_id candidate = false ->
           forall p others,
             alivePlayers context = p :: others -> targetPlayerId d = id p))
    /\ (truthy_id selected = false -> truthy_id candidate = false ->
        alivePlayers context = [] ->
        negotiateKillTarget context suggestions st = (Throw TypeError, st)).
Proof.
  intros context suggestions st. cbv zeta.
  unfold negotiateKillTarget, makeTeamDecision.
  destruct (best_target (analyzeTargetSuggestions suggestions)) as [t|];
    [destruct (truthy t) eqn:T|];
    (destruct (targetCandidates context) as [|c cs];
     [|destruct (truthy c) eqn:Tc]);
    destruct (alivePlayers context) as [|p others];
    simpl; rewrite ?T, ?Tc; simpl; rewrite ?T, ?Tc; simpl;
    (split;
     [intros Any;
      first
        [ exfalso; destruct Any as [X|[X|X]];
          first [discriminate X|apply X; reflexivity]
        | eexists; split; [reflexivity|]; simpl;
          split; [|split]; intros;
          repeat match goal with
                 | E : Some _ = Some _ |- _ => injection E as E; subst
                 | E : _ :: _ = _ :: _ |- _ => injection E as ? ?; subst
                 | N : _ <> 0 |- _ => apply truthy_true in N
                 end;
          first [reflexivity|discriminate|congruence] ]
     |intros; first [reflexivity|discriminate|congruence]]).
Qed.

Lemma negotiate_fallback_chain_example :
  (exists d,
     negotiateKillTarget
       (mkContext 3 [mkPlayerInfo 6 true] [1; 4] [1; 4] [] "" low) [] new
     = (Normal d, mkState [] [d] [] 0)
     /\ targetPlayerId d = 6)
  /\ (exists d,
        negotiateKillTarget (mkContext 3 [] [1; 4] [1; 4] [5; 7] "" low) []
          new
        = (Normal d, mkState [] [d] [] 0)
        /\ targetPlayerId d = 5)
  /\ negotiateKillTarget (mkContext 3 [] [1; 4] [1; 4] [] "" low) [] new
     = (Throw TypeError, new).
Proof.
  split; [|split].
  - destruct (proj1
                (negotiate_fallback_chain
                   (mkContext 3 [mkPlayerInfo 6 true] [1; 4] [1; 4] [] ""
                      low)
                   [] new)
                (or_intror (or_intror (fun X => nil_cons (eq_sym X)))))
      as (d & E & _ & _ & F).
    exists d. split; [exact E|].
    exact (F eq_refl eq_refl (mkPlayerInfo 6 true) [] eq_refl).
  - destruct (proj1
                (negotiate_fallback_chain
                   (mkContext 3 [] [1; 4] [1; 4] [5; 7] "" low) [] new)
                (or_intror (or_introl eq_refl)))
      as (d & E & _ & F & _).
    exists d. split; [exact E|].
    apply (F eq_refl 5 eq_refl). discriminate.
  - apply (proj2
             (negotiate_fallback_chain
                (mkContext 3 [] [1; 4] [1; 4] [] "" low) [] new));
      reflexivity.
Defined.

(** *** [cleanup] *)

Lemma Map_get_delete {V} (r k : Z) (m : list (Z * V)) :
  Map_get r (Map_delete k m) = if r =? k then None else Map_get r m.
Proof.
  induction m as [|[k' v] m IH]; simpl.
  - destruct (r =? k); reflexivity.
  - destruct (k' =? k) eqn:E; simpl.
    + apply Z.eqb_eq in E. subst k'. rewrite IH.
      destruct (r =? k); reflexivity.
    + rewrite IH. destruct (r =? k') eqn:E'; [|reflexivity].
      apply Z.eqb_eq in E'. subst k'. rewrite E. reflexivity.
Qed.

Lemma Map_get_None_keys {V} (r : Z) (m : list (Z * V)) :
  ~ In r (Map_keys m) -> Map_get r m = None.
Proof.
  induction m as [|[k v] m IH]; simpl; intros N; [reflexivity|].
  destruct (r =? k) eqn:E.
  - apply Z.eqb_eq in E. subst. tauto.
  - apply IH. tauto.
Qed.

Lemma Map_get_prune {V} (stale : Z -> bool) (r : Z) (keys : list Z)
  (m : list (Z * V)) :
  Map_get r
    (fold_left (fun h k => if stale k then Map_delete k h else h) keys m)
  = if existsb (Z.eqb r) keys && stale r then None else Map_get r m.
Proof.
  revert m. induction keys as [|k keys IH]; intros m; simpl; [reflexivity|].
  rewrite IH. destruct (stale k) eqn:S.
  - rewrite Map_get_delete. destruct (r =? k) eqn:E; simpl.
    + apply Z.eqb_eq in E. subst k. rewrite S.
      destruct (existsb _ keys); reflexivity.
    + reflexivity.
  - destruct (r =? k) eqn:E; simpl; [|reflexivity].
    apply Z.eqb_eq in E. subst k. rewrite S.
    rewrite andb_false_r. reflexivity.
Qed.

(** C8: [cleanup(currentRound)] keeps a logged message exactly when
    [currentRound - round <= 3], in the order it was logged, and keeps the
    history bucket of a round under the same condition, untouched; all
    others are removed.  So [cleanup(10)] removes every message of a round
    up to 6 and keeps every message of rounds 7 to 10. *)
Theorem cleanup_drops_older_than_three_rounds :
  forall currentRound st,
    (forall m,
       In m (messages (cleanup currentRound st)) <->
       In m (messages st) /\ currentRound - msg_round m <= 3)
    /\ (forall r,
          Map_get r (communicationHistory (cleanup currentRound st))
          = if 3 <? currentRound - r then None
            else Map_get r (communicationHistory st))
    /\ (forall m,
          In m (messages st) -> msg_round m <= 6 ->
          ~ In m (messages (cleanup 10 st)))
    /\ (forall m,
          In m (messages st) -> 7 <= msg_round m <= 10 ->
          In m (messages (cleanup 10 st))).
Proof.
  intros currentRound st.
  assert (K : forall cur m,
             In m (messages (cleanup cur st)) <->
             In m (messages st) /\ cur - msg_round m <= 3).
  { intros cur m. unfold cleanup. simpl. rewrite filter_In.
    rewrite Z.leb_le. reflexivity. }
  split; [apply K|]. split.
  - intros r. unfold cleanup. simpl. rewrite Map_get_prune.
    destruct (3 <? currentRound - r) eqn:S.
    + destruct (existsb (Z.eqb r) (Map_keys (communicationHistory st)))
        eqn:X; simpl; [reflexivity|].
      apply Map_get_None_keys. intros I.
      assert (existsb (Z.eqb r) (Map_keys (communicationHistory st)) = true)
        by (apply existsb_exists; exists r; split;
            [exact I|apply Z.eqb_refl]).
      congruence.
    + rewrite andb_false_r. reflexivity.
  - split.
    + intros m _ R I. apply K in I. lia.
    + intros m I R. apply K. split; [exact I|lia].
Qed.

(** *** [analyzeTargetSuggestions] counts the suggestions per target *)

Lemma Map_get_set {V} (k k' : Z) (v : V) (m : list (Z * V)) :
  Map_get k' (Map_set k v m) = if k' =? k then Some v else Map_get k' m.
Proof.
  induction m as [|[k0 v0] m IH]; simpl.
  - reflexivity.
  - destruct (k =? k0) eqn:E; simpl.
    + apply Z.eqb_eq in E. subst k0. destruct (k' =? k); reflexivity.
    + rewrite IH. destruct (k' =? k0) eqn:E0; [|reflexivity].
      apply Z.eqb_eq in E0. subst k0.
      destruct (k' =? k) eqn:E1; [|reflexivity].
      apply Z.eqb_eq in E1. subst k'. rewrite Z.eqb_refl in E. discriminate.
Qed.

Lemma Map_get_map {V W} (f : V -> W) (k : Z) (m : list (Z * V)) :
  Map_get k (map (fun kv => (fst kv, f (snd kv))) m)
  = option_map f (Map_get k m).
Proof.
  induction m as [|[k0 v0] m IH]; simpl; [reflexivity|].
  destruct (k =? k0); [reflexivity|exact IH].
Qed.

Lemma Map_get_In_keys {V} (k : Z) (m : list (Z * V)) :
  In k (Map_keys m) -> exists v, Map_get k m = Some v.
Proof.
  induction m as [|[k0 v0] m IH]; simpl; [contradiction|].
  intros [->|I].
  - rewrite Z.eqb_refl. eauto.
  - destruct (k =? k0); eauto.
Qed.

Lemma record_suggestion_votes analysis s t :
  votes_of t (record_suggestion analysis s)
  = votes_of t analysis + (if suggestedTarget s =? t then 1 else 0).
Proof.
  unfold votes_of, record_suggestion, Map_has.
  destruct (Map_get (suggestedTarget s) analysis) as [d|] eqn:G; simpl.
  - rewrite G. rewrite Map_get_set. rewrite (Z.eqb_sym t).
    destruct (suggestedTarget s =? t) eqn:E.
    + apply Z.eqb_eq in E. subst t. rewrite G. reflexivity.
    + lia.
  - rewrite Map_get_set, Z.eqb_refl. rewrite !Map_get_set.
    rewrite (Z.eqb_sym t).
    destruct (suggestedTarget s =? t) eqn:E.
    + apply Z.eqb_eq in E. subst t. rewrite G. reflexivity.
    + lia.
Qed.

Lemma fold_record_votes suggestions analysis t :
  votes_of t (fold_left record_suggestion suggestions analysis)
  = votes_of t analysis + suggestions_for t suggestions.
Proof.
  revert analysis. induction suggestions as [|s l IH]; intros analysis;
    simpl.
  - unfold suggestions_for. simpl. lia.
  - rewrite IH, record_suggestion_votes. unfold suggestions_for. simpl.
    destruct (suggestedTarget s =? t); simpl List.length; lia.
Qed.

Lemma analysis_votes suggestions t :
  votes_of t (analyzeTargetSuggestions suggestions)
  = suggestions_for t suggestions.
Proof.
  unfold analyzeTargetSuggestions, votes_of. rewrite Map_get_map.
  pose proof (fold_record_votes suggestions [] t) as V.
  unfold votes_of in V.
  destruct (Map_get t (fold_left record_suggestion suggestions []));
    simpl in *; exact V.
Qed.

Lemma fold_pick_best_key analysis acc t :
  fst (fold_left pick_best analysis acc) = Some t ->
  fst acc = Some t \/ In t (Map_keys analysis).
Proof.
  revert acc. induction analysis as [|[k d] m IH]; intros acc; simpl.
  - auto.
  - intros E. apply IH in E. destruct E as [E|I]; [|auto].
    unfold pick_best in E. simpl in E.
    destruct (snd acc <? score d)%float; simpl in E.
    + injection E as ->. auto.
    + auto.
Qed.

Lemma best_target_key analysis t :
  best_target analysis = Some t -> In t (Map_keys analysis).
Proof.
  unfold best_target. intros E. apply fold_pick_best_key in E.
  destruct E as [E|I]; [discriminate|exact I].
Qed.

(** The three suggestions for P2 and the one for P3, the latter standing
    at position [k] among them. *)
Lemma example_analysis m1 m2 m3 m4 r1 r2 r3 r4 (k : nat) :
  (k <= 3)%nat ->
  let p2 := [mkSuggestion m1 2 r1 5; mkSuggestion m2 2 r2 5;
             mkSuggestion m3 2 r3 5] in
  let analysis :=
    analyzeTargetSuggestions
      (firstn k p2 ++ mkSuggestion m4 3 r4 1 :: skipn k p2) in
  exists d2 d3,
    (analysis = [(2, d2); (3, d3)] \/ analysis = [(3, d3); (2, d2)])
    /\ votes d2 = 3 /\ totalPriority d2 = 15%float
    /\ votes d3 = 1 /\ totalPriority d3 = 1%float
    /\ In (riskLevel d2) [0.3; 0.8; 0.5]%float
    /\ In (riskLevel d3) [0.3; 0.8; 0.5]%float.
Proof.
  intros K.
  assert (R : forall d, In (riskLevel (assess_risk d)) [0.3; 0.8; 0.5]%float).
  { intros d. unfold assess_risk. simpl.
    destruct (some mentions_god_role _); [auto|].
    destruct (some mentions_suspicion _); auto. }
  destruct k as [|[|[|[|k]]]]; [| | | |lia];
    (eexists; eexists; split;
     [first [left; reflexivity | right; reflexivity]|];
     repeat split; try reflexivity; apply R).
Qed.

Lemma example_scores d2 d3 :
  votes d2 = 3 -> totalPriority d2 = 15%float ->
  votes d3 = 1 -> totalPriority d3 = 1%float ->
  In (riskLevel d2) [0.3; 0.8; 0.5]%float ->
  In (riskLevel d3) [0.3; 0.8; 0.5]%float ->
  best_target [(2, d2); (3, d3)] = Some 2
  /\ best_target [(3, d3); (2, d2)] = Some 2.
Proof.
  intros V2 P2 V3 P3 R2 R3.
  unfold best_target, pick_best, score. simpl.
  rewrite V2, P2, V3, P3.
  simpl in R2, R3.
  destruct R2 as [<-|[<-|[<-|[]]]]; destruct R3 as [<-|[<-|[<-|[]]]];
    split; reflexivity.
Qed.

(** C5: three suggestions for P2 with priority 5 each and one for P3 with
    priority 1, in any order and with any reasons, and four alive wolves:
    the decision names P2 and reports consensus.  In general, when the
    decision names the target the scoring selected or, failing that, the
    first legal candidate (player ids, so not 0), it reports consensus
    exactly when the number of suggestions naming that target exceeds half
    the number of alive wolves; a decision that falls back to the first
    alive player reports none. *)
Theorem negotiate_consensus_is_strict_majority :
  (forall context st m1 m2 m3 m4 r1 r2 r3 r4 (k : nat),
     List.length (aliveWerewolves context) = 4%nat -> (k <= 3)%nat ->
     let p2 := [mkSuggestion m1 2 r1 5; mkSuggestion m2 2 r2 5;
                mkSuggestion m3 2 r3 5] in
     exists d,
       fst (negotiateKillTarget context
              (firstn k p2 ++ mkSuggestion m4 3 r4 1 :: skipn k p2) st)
       = Normal d
       /\ targetPlayerId d = 2 /\ consensus d = true)
  /\ (forall context suggestions st d,
        fst (negotiateKillTarget context suggestions st) = Normal d ->
        truthy_id (best_target (analyzeTargetSuggestions suggestions))
        = true
        \/ truthy_id (hd_error (targetCandidates context)) = true ->
        (forall t,
           best_target (analyzeTargetSuggestions suggestions) = Some t ->
           t <> 0 -> targetPlayerId d = t)
        /\ (consensus d = true <->
            Z.of_nat (List.length (aliveWerewolves context))
            < 2 * suggestions_for (targetPlayerId d) suggestions))
  /\ (forall context suggestions st d,
        fst (negotiateKillTarget context suggestions st) = Normal d ->
        truthy_id (best_target (analyzeTargetSuggestions suggestions))
        = false ->
        truthy_id (hd_error (targetCandidates context)) = false ->
        consensus d = false).
Proof.
  split; [|split].
  - intros context st m1 m2 m3 m4 r1 r2 r3 r4 k W K p2.
    destruct (example_analysis m1 m2 m3 m4 r1 r2 r3 r4 k K)
      as (d2 & d3 & A & V2 & P2 & V3 & P3 & R2 & R3).
    destruct (example_scores d2 d3 V2 P2 V3 P3 R2 R3) as [B1 B2].
    fold p2 in A. unfold negotiateKillTarget, makeTeamDecision.
    destruct A as [A|A]; rewrite A; [rewrite B1|rewrite B2]; simpl;
      unfold exceeds_half; rewrite V2, W; simpl;
      eexists; (split; [reflexivity|]); split; reflexivity.
  - intros context suggestions st d E T.
    assert (S : exists t,
               truthy t = true /\ targetPlayerId d = t
               /\ consensus d
                  = (Z.of_nat (List.length (aliveWerewolves context))
                     <? 2 * votes_of t (analyzeTargetSuggestions suggestions))
               /\ (forall t',
                     best_target (analyzeTargetSuggestions suggestions)
                     = Some t' -> t' <> 0 -> t' = t)).
    { unfold negotiateKillTarget, makeTeamDecision in E. unfold votes_of.
      destruct (best_target (analyzeTargetSuggestions suggestions))
        as [t|] eqn:B; simpl in E, T.
      - destruct (truthy t) eqn:Tt; simpl in E.
        + rewrite Tt in E. exists t.
          destruct (Map_get t (analyzeTargetSuggestions suggestions));
            simpl in E; injection E as <-; simpl;
            repeat split;
            first [ assumption | reflexivity
                  | symmetry; apply Z.ltb_ge; lia
                  | intros t' Et _; injection Et as <-; reflexivity ].
        + destruct T as [T|T]; [discriminate|].
          destruct (targetCandidates context) as [|c cs];
            [discriminate|]. simpl in E, T. rewrite T in E.
          exists c.
          destruct (Map_get c (analyzeTargetSuggestions suggestions));
            simpl in E; injection E as <-; simpl;
            repeat split;
            first [ assumption | reflexivity
                  | symmetry; apply Z.ltb_ge; lia
                  | intros t' Et N; injection Et as <-;
                    apply truthy_true in N; congruence ].
      - destruct T as [T|T]; [discriminate|].
        destruct (targetCandidates context) as [|c cs];
          [discriminate|]. simpl in E, T. rewrite T in E.
        exists c.
        destruct (Map_get c (analyzeTargetSuggestions suggestions));
          simpl in E; injection E as <-; simpl;
          repeat split;
          first [ assumption | reflexivity
                | symmetry; apply Z.ltb_ge; lia
                | discriminate ]. }
    destruct S as (t & Tt & Et & C & U).
    split.
    + intros t' B N. rewrite Et. symmetry. apply (U t' B N).
    + rewrite C, Et, analysis_votes. apply Z.ltb_lt.
  - intros context suggestions st d E B C.
    unfold negotiateKillTarget, makeTeamDecision in E.
    assert (X : truthy_id
                  (if negb (truthy_id
                              (best_target
                                 (analyzeTargetSuggestions suggestions)))
                      && (0 <? Z.of_nat
                                 (List.length (targetCandidates context)))
                   then hd_error (targetCandidates context)
                   else best_target (analyzeTargetSuggestions suggestions))
                = false).
    { rewrite B. simpl. destruct (0 <? _); [exact C|exact B]. }
    cbv zeta in E. rewrite X in E.
    destruct (or_id _ _) in E; simpl in E; [|discriminate].
    injection E as <-. reflexivity.
Qed.

Lemma negotiate_consensus_is_strict_majority_example :
  (exists d,
     fst (negotiateKillTarget
            (mkContext 2 [] [1; 4; 6; 8] [1; 4; 6; 8] [2; 3; 5] "" medium)
            [mkSuggestion 1 2 "a" 5; mkSuggestion 4 2 "b" 5;
             mkSuggestion 6 2 "c" 5; mkSuggestion 8 3 "d" 1] new)
     = Normal d
     /\ targetPlayerId d = 2 /\ consensus d = true)
  /\ (consensus (mkDecision 2 "a; b; c" true [1; 4; 6; 8] (Some 1)) = true
      <-> 4 < 2 * suggestions_for 2
                    [mkSuggestion 1 2 "a" 5; mkSuggestion 4 2 "b" 5;
                     mkSuggestion 6 2 "c" 5; mkSuggestion 8 3 "d" 1]).
Proof.
  split.
  - apply (proj1 negotiate_consensus_is_strict_majority
             (mkContext 2 [] [1; 4; 6; 8] [1; 4; 6; 8] [2; 3; 5] "" medium)
             new 1 4 6 8 "a" "b" "c" "d" 3%nat); [reflexivity|lia].
  - apply (proj1 (proj2 negotiate_consensus_is_strict_majority)
             (mkContext 2 [] [1; 4; 6; 8] [1; 4; 6; 8] [2; 3; 5] "" medium)
             [mkSuggestion 1 2 "a" 5; mkSuggestion 4 2 "b" 5;
              mkSuggestion 6 2 "c" 5; mkSuggestion 8 3 "d" 1] new
             (mkDecision 2 "a; b; c" true [1; 4; 6; 8] (Some 1)));
      [reflexivity|left; reflexivity].
Defined.

(** *** [generateWerewolfCommunication] *)

Lemma fold_left_concat {X Y} (f : X -> Y -> X) (ls : list (list Y)) (x : X) :
  fold_left (fun a l => fold_left f l a) ls x = fold_left f (List.concat ls) x.
Proof.
  revert x. induction ls as [|l ls IH]; intros x; simpl; [reflexivity|].
  rewrite fold_left_app. apply IH.
Qed.

Section GodRoleScan.
Context `{Externals} (context : WerewolfCommunicationContext).

Lemma raise_threat_fold content pid team a :
  godRoleCandidates
    (fold_left
       (fun acc werewolfId =>
          if String_includes content (Z_toString werewolfId)
          then raise_threat
                 (Z_toString pid ++ "号怀疑" ++ Z_toString werewolfId
                  ++ "号是狼人") acc
          else acc)
       team a)
  = godRoleCandidates a.
Proof.
  revert a. induction team as [|w team IH]; intros a; simpl; [reflexivity|].
  rewrite IH. destruct (String_includes content (Z_toString w)); reflexivity.
Qed.

Lemma add_godRoleCandidate_hd p a :
  hd_error (godRoleCandidates (add_godRoleCandidate p a))
  = match hd_error (godRoleCandidates a) with
    | Some h => Some h
    | None => Some p
    end.
Proof.
  unfold add_godRoleCandidate.
  destruct (godRoleCandidates a) as [|h l] eqn:G; simpl.
  - reflexivity.
  - destruct (negb _); simpl; rewrite ?G; reflexivity.
Qed.

Lemma scan_speech_hd a speech :
  hd_error (godRoleCandidates (scan_speech context a speech))
  = match hd_error (godRoleCandidates a) with
    | Some h => Some h
    | None => if reveals_god_role context speech
              then Some (speech_playerId speech) else None
    end.
Proof.
  unfold scan_speech, reveals_god_role, god_marker.
  destruct (includes (speech_playerId speech) (werewolfTeam context)); simpl.
  { destruct (hd_error (godRoleCandidates a)); reflexivity. }
  set (content := toLowerCase (speech_content speech)).
  assert (E : forall b, hd_error (godRoleCandidates
                (if suspicion_marker content
                 then fold_left
                        (fun acc werewolfId =>
                           if String_includes content (Z_toString werewolfId)
                           then raise_threat
                                  (Z_toString (speech_playerId speech)
                                   ++ "号怀疑" ++ Z_toString werewolfId
                                   ++ "号是狼人") acc
                           else acc)
                        (werewolfTeam context) b
                 else b))
              = hd_error (godRoleCandidates b)).
  { intros b. destruct (suspicion_marker content); [|reflexivity].
    rewrite raise_threat_fold. reflexivity. }
  rewrite E.
  destruct (seer_marker content), (witch_marker content); simpl;
    rewrite ?add_godRoleCandidate_hd;
    destruct (hd_error (godRoleCandidates a)); reflexivity.
Qed.

Lemma scan_speeches_hd speeches a :
  hd_error (godRoleCandidates (fold_left (scan_speech context) speeches a))
  = match hd_error (godRoleCandidates a) with
    | Some h => Some h
    | None => option_map speech_playerId
                (find (reveals_god_role context) speeches)
    end.
Proof.
  revert a. induction speeches as [|s l IH]; intros a; simpl.
  - destruct (hd_error (godRoleCandidates a)); reflexivity.
  - rewrite IH, scan_speech_hd.
    destruct (hd_error (godRoleCandidates a)); [reflexivity|].
    destruct (reveals_god_role context s); reflexivity.
Qed.

Lemma scan_votes_god votes a :
  godRoleCandidates (fold_left (scan_vote context) votes a)
  = godRoleCandidates a.
Proof.
  revert a. induction votes as [|v l IH]; intros a; simpl; [reflexivity|].
  rewrite IH. unfold scan_vote, add_suspiciousPlayer.
  destruct (includes (targetId v) (werewolfTeam context)); [|reflexivity].
  destruct (negb _); reflexivity.
Qed.

Lemma scan_players_god players a :
  godRoleCandidates (fold_left (scan_player context) players a)
  = godRoleCandidates a.
Proof.
  revert a. induction players as [|p l IH]; intros a; simpl; [reflexivity|].
  rewrite IH. unfold scan_player.
  destruct (includes (id p) (werewolfTeam context)); [reflexivity|].
  destruct (_ && _); reflexivity.
Qed.

Lemma analysis_first_god_role allSpeeches allVotes :
  hd_error
    (godRoleCandidates (analyzeGameSituation context allSpeeches allVotes))
  = option_map speech_playerId
      (find (reveals_god_role context) (all_speeches allSpeeches)).
Proof.
  unfold analyzeGameSituation, all_speeches.
  rewrite scan_players_god, !fold_left_concat, scan_votes_god.
  rewrite scan_speeches_hd. reflexivity.
Qed.

End GodRoleScan.

Lemma find_first {X} (f : X -> bool) (before after : list X) (x : X) :
  Forall (fun y => f y = false) before -> f x = true ->
  find f (before ++ x :: after) = Some x.
Proof.
  intros B T. induction B as [|y l Fy Fl IH]; simpl.
  - rewrite T. reflexivity.
  - rewrite Fy. exact IH.
Qed.

(** C7: when some speech of a player outside the wolf team carries a seer
    or witch marker (whether or not it also voices suspicion of a wolf), the
    message produced is a high-priority target suggestion, and its target
    is the speaker of the first such speech in the order of the scan; so it
    is the speaker of the given speech when no speech before it is such a
    speech. *)
Theorem communication_targets_first_god_role :
  forall (E : Externals) sender context allSpeeches allVotes st speech,
    In speech (all_speeches allSpeeches) ->
    includes (speech_playerId speech) (werewolfTeam context) = false ->
    god_marker (toLowerCase (speech_content speech)) = true ->
    exists first,
      find (reveals_god_role context) (all_speeches allSpeeches) = Some first
      /\ (let c := fst (generateWerewolfCommunication sender context
                          allSpeeches allVotes st) in
          messageType c = target_suggestion
          /\ priority c = high
          /\ comm_suggestedTarget c = Some (speech_playerId first))
      /\ (forall before after,
            all_speeches allSpeeches = (before ++ speech :: after)%list ->
            Forall (fun s => reveals_god_role context s = false) before ->
            first = speech).
Proof.
  intros E sender context allSpeeches allVotes st speech I T M.
  assert (R : reveals_god_role context speech = true).
  { unfold reveals_god_role. rewrite T, M. reflexivity. }
  destruct (find (reveals_god_role context) (all_speeches allSpeeches))
    as [first|] eqn:F.
  - exists first. split; [reflexivity|]. split.
    + pose proof (analysis_first_god_role context allSpeeches allVotes) as A.
      rewrite F in A. simpl in A.
      unfold generateWerewolfCommunication, generateCommunicationContent.
      simpl fst.
      destruct (godRoleCandidates
                  (analyzeGameSituation context allSpeeches allVotes))
        as [|target rest]; [discriminate|].
      simpl in A. injection A as ->. simpl. auto.
    + intros before after S B. rewrite S in F.
      rewrite (find_first _ before after speech B R) in F.
      injection F as <-. reflexivity.
  - exfalso. apply (find_none _ _ F) in I. congruence.
Qed.

Lemma communication_targets_first_god_role_example :
  exists first,
    find (reveals_god_role (mkContext 1 [] [1; 4] [1; 4] [] "" medium))
      (all_speeches
         [(1, [mkSpeech 2 "大家好"; mkSpeech 3 "我是预言家";
               mkSpeech 5 "我有药水"])])
    = Some first
    /\ let c :=
         fst (generateWerewolfCommunication 1
                (mkContext 1 [] [1; 4] [1; 4] [] "" medium)
                [(1, [mkSpeech 2 "大家好"; mkSpeech 3 "我是预言家";
                      mkSpeech 5 "我有药水"])]
                [] new) in
       messageType c = target_suggestion
       /\ priority c = high
       /\ comm_suggestedTarget c = Some (speech_playerId first).
Proof.
  destruct (communication_targets_first_god_role example_host 1
              (mkContext 1 [] [1; 4] [1; 4] [] "" medium)
              [(1, [mkSpeech 2 "大家好"; mkSpeech 3 "我是预言家";
                    mkSpeech 5 "我有药水"])]
              [] new (mkSpeech 3 "我是预言家"))
    as (first & F & C & _).
  - simpl. right. left. reflexivity.
  - reflexivity.
  - reflexivity.
  - exists first. split; [exact F|exact C].
Defined.

End Coordination.

(** ** The memory store *)

Section Memory.
Import AIMemorySystem.
Context `{Externals}.

(** *** [addMemory] *)

Lemma addMemory_memories params st :
  memories (addMemory params st)
  = let pushed := push (memories st) (new_entry params st) in
    if 100 <? Z.of_nat (List.length pushed)
    then firstn 80 (sort_desc importance pushed)
    else pushed.
Proof. reflexivity. Qed.

Lemma addMemory_profiles params st :
  playerProfiles (addMemory params st) = playerProfiles st.
Proof. reflexivity. Qed.

Lemma addMemory_length params st :
  (List.length (memories st) <= 100)%nat ->
  (List.length (memories (addMemory params st)) <= 100)%nat.
Proof.
  intros L. rewrite addMemory_memories. cbv zeta.
  destruct (100 <? _) eqn:O.
  - rewrite length_firstn. lia.
  - apply Z.ltb_ge in O. lia.
Qed.

Lemma In_firstn {X} (n : nat) (l : list X) (x : X) :
  In x (firstn n l) -> In x l.
Proof.
  intros I. rewrite <- (firstn_skipn n l). apply in_or_app. left. exact I.
Qed.

Lemma addMemory_Forall (P : AIMemoryEntry -> Prop) params st :
  P (new_entry params st) -> Forall P (memories st) ->
  Forall P (memories (addMemory params st)).
Proof.
  intros Pn Pm. rewrite addMemory_memories. cbv zeta.
  assert (Pp : Forall P (push (memories st) (new_entry params st))).
  { unfold push. apply Forall_app. split; [exact Pm|]. repeat constructor.
    exact Pn. }
  destruct (100 <? _); [|exact Pp].
  rewrite Forall_forall in *. intros m I. apply Pp.
  eapply Permutation_in; [apply sort_desc_perm|].
  eapply In_firstn. exact I.
Qed.

Lemma addMemory_sound params st :
  params_in_range params -> sound st -> sound (addMemory params st).
Proof.
  intros P (L & M & R & C). unfold sound.
  rewrite addMemory_profiles. repeat split; try assumption.
  - apply addMemory_length. exact L.
  - apply addMemory_Forall; [exact P|exact M].
Qed.

(** *** Profiles *)

Lemma Map_get_In {V} (k : Z) (v : V) (m : list (Z * V)) :
  Map_get k m = Some v -> In (k, v) m.
Proof.
  induction m as [|[k0 v0] m IH]; simpl; [discriminate|].
  destruct (k =? k0) eqn:E.
  - apply Z.eqb_eq in E. subst k0. intros G. injection G as ->. auto.
  - auto.
Qed.

Lemma Map_set_Forall {V} (P : Z * V -> Prop) (k : Z) (v : V)
  (m : list (Z * V)) :
  P (k, v) -> Forall P m -> Forall P (Map_set k v m).
Proof.
  intros Pk. induction m as [|[k0 v0] m IH]; simpl; intros F.
  - repeat constructor. exact Pk.
  - inversion F; subst. destruct (k =? k0); constructor; auto.
Qed.

Lemma updatePlayerProfile_sound playerId analysis alivePlayers st :
  sound st -> sound (updatePlayerProfile playerId analysis alivePlayers st).
Proof.
  intros (L & M & R & C). unfold sound, updatePlayerProfile. simpl.
  repeat split; try assumption.
  - apply Map_set_Forall; [|exact R]. unfold profile_in_range. simpl.
    destruct (Map_get playerId (playerProfiles st)) as [profile|] eqn:G.
    + apply Map_get_In in G. rewrite Forall_forall in R.
      apply (R _ G).
    + reflexivity.
  - apply Map_set_Forall; [|exact C]. unfold profile_clean. simpl.
    destruct (Map_get playerId (playerProfiles st)) as [profile|] eqn:G.
    + apply Map_get_In in G. rewrite Forall_forall in C.
      apply (C _ G).
    + reflexivity.
Qed.

Lemma updateGameContext_sound round phase st :
  sound st -> sound (updateGameContext round phase st).
Proof. intros S. exact S. Qed.

(** *** Scores of a speech *)

Lemma snd_note hit tag acc :
  snd (note hit tag acc) = if hit then (snd acc + 0.1)%float else snd acc.
Proof. destruct hit; reflexivity. Qed.

Lemma extractSpeechInsights_in_range speech allSpeeches :
  in01 (insight_confidence (extractSpeechInsights speech allSpeeches))
  = true.
Proof.
  unfold extractSpeechInsights. cbv zeta. unfold insight_confidence.
  rewrite !snd_note. unfold snd at 1.
  repeat match goal with
         | |- context [if ?b then _ else _] => destruct b
         end; reflexivity.
Qed.

Lemma calculateRelevance_in_range playerId keywords st :
  in01 (calculateRelevance playerId keywords st) = true.
Proof.
  unfold calculateRelevance. cbv zeta.
  destruct (includes playerId _); destruct (some core_keyword keywords);
    reflexivity.
Qed.

Lemma analyzeSpeech_sound speech allSpeeches alivePlayers st :
  sound st -> sound (analyzeSpeech speech allSpeeches alivePlayers st).
Proof.
  intros S. unfold analyzeSpeech. cbv zeta.
  assert (S2 : sound
                 (updatePlayerProfile (speech_playerId speech)
                    (extractSpeechInsights speech allSpeeches) alivePlayers
                    (addMemory
                       (mkParams speech_analysis
                          (Some (speech_playerId speech))
                          (summary (extractSpeechInsights speech allSpeeches))
                          (insight_confidence
                             (extractSpeechInsights speech allSpeeches))
                          (calculateRelevance (speech_playerId speech)
                             (keywords
                                (extractSpeechInsights speech allSpeeches))
                             st)
                          observation)
                       st))).
  { apply updatePlayerProfile_sound, addMemory_sound; [|exact S].
    split.
    - exact (extractSpeechInsights_in_range speech allSpeeches).
    - exact (calculateRelevance_in_range _ _ _). }
  destruct (0 <? _); [|exact S2].
  apply addMemory_sound; [|exact S2]. split; reflexivity.
Qed.

(** *** Scores of voting patterns *)

Lemma patterns_of_in_range allVotes patterns entry :
  Forall pattern_in_range patterns ->
  Forall pattern_in_range (patterns_of allVotes patterns entry).
Proof.
  intros F. unfold patterns_of. destruct entry as [playerId cast].
  destruct (_ <? 2); [exact F|].
  assert (F1 : Forall pattern_in_range
                 (if detectFollowerBehavior cast allVotes
                  then push patterns
                         (mkPattern playerId
                            "经常跟票，可能是狼人或保守村民" 0.6%float)
                  else patterns)).
  { destruct (detectFollowerBehavior cast allVotes); [|exact F].
    apply Forall_app. split; [exact F|]. repeat constructor. }
  destruct (Nat.eqb _ _); [|exact F1].
  apply Forall_app. split; [exact F1|]. repeat constructor.
Qed.

Lemma extractVotingPatterns_in_range votes allVotes :
  Forall pattern_in_range (extractVotingPatterns votes allVotes).
Proof.
  unfold extractVotingPatterns. cbv zeta.
  generalize (fold_left
                (fun acc roundVotes => fold_left group_vote roundVotes acc)
                (Object_values allVotes) []).
  intros playerVotes.
  assert (G : forall acc, Forall pattern_in_range acc ->
                Forall pattern_in_range
                  (fold_left (patterns_of allVotes) playerVotes acc)).
  { induction playerVotes as [|e l IH]; intros acc F; simpl; [exact F|].
    apply IH, patterns_of_in_range, F. }
  apply G. constructor.
Qed.

Lemma analyzeVotingPattern_sound votes allVotes alivePlayers st :
  sound st -> sound (analyzeVotingPattern votes allVotes alivePlayers st).
Proof.
  unfold analyzeVotingPattern.
  pose proof (extractVotingPatterns_in_range votes allVotes) as F.
  revert st.
  induction (extractVotingPatterns votes allVotes) as [|p l IH];
    intros st S; simpl; [exact S|].
  inversion F; subst. apply IH; [assumption|].
  apply addMemory_sound; [|exact S]. split; [assumption|reflexivity].
Qed.

(** *** Scores of role deductions *)

Lemma analyzePlayerRole_in_range playerId allSpeeches allVotes st :
  (0.3 <? ded_confidence (analyzePlayerRole playerId allSpeeches allVotes st))
  %float = true ->
  in01 (ded_confidence (analyzePlayerRole playerId allSpeeches allVotes st))
  = true.
Proof.
  unfold analyzePlayerRole. cbv zeta. unfold ded_confidence.
  intros G. apply clamped_in01; [exact G|reflexivity].
Qed.

Lemma deduce_player_sound allSpeeches allVotes acc player :
  Forall deduction_in_range (fst acc) ->
  Forall deduction_in_range
    (fst (deduce_player allSpeeches allVotes acc player))
  /\ (sound (snd acc) ->
      sound (snd (deduce_player allSpeeches allVotes acc player))).
Proof.
  destruct acc as [roleDeductions st]. cbn [fst snd]. intros F.
  unfold deduce_player.
  destruct (id player =? myPlayerId (gameContext st)); [auto|].
  destruct (0.3 <? _)%float eqn:G; [|auto].
  pose proof (analyzePlayerRole_in_range (id player) allSpeeches allVotes
                st G) as R.
  cbn [fst snd]. split.
  - apply Map_set_Forall; [exact R|exact F].
  - intros S. apply addMemory_sound; [|exact S].
    split; [exact R|reflexivity].
Qed.

Lemma deduceRoles_fold_sound allSpeeches allVotes alivePlayers acc :
  Forall deduction_in_range (fst acc) ->
  Forall deduction_in_range
    (fst (fold_left (deduce_player allSpeeches allVotes) alivePlayers acc))
  /\ (sound (snd acc) ->
      sound
        (snd (fold_left (deduce_player allSpeeches allVotes) alivePlayers
                acc))).
Proof.
  revert acc. induction alivePlayers as [|p l IH]; intros acc F; simpl.
  - auto.
  - destruct (deduce_player_sound allSpeeches allVotes acc p F) as [F1 S1].
    destruct (IH _ F1) as [F2 S2]. auto.
Qed.

Lemma deduceRoles_in_range alivePlayers allSpeeches allVotes st :
  Forall deduction_in_range
    (fst (deduceRoles alivePlayers allSpeeches allVotes st)).
Proof.
  apply (deduceRoles_fold_sound allSpeeches allVotes alivePlayers ([], st)).
  constructor.
Qed.

Lemma deduceRoles_sound alivePlayers allSpeeches allVotes st :
  sound st -> sound (snd (deduceRoles alivePlayers allSpeeches allVotes st)).
Proof.
  apply (deduceRoles_fold_sound allSpeeches allVotes alivePlayers ([], st)).
  constructor.
Qed.

(** *** Threat levels *)

Lemma assess_profile_in_range st threats entry :
  Forall threat_in_range threats ->
  Forall threat_in_range (assess_profile st threats entry).
Proof.
  intros F. unfold assess_profile. destruct entry as [playerId profile].
  destruct (playerId =? myPlayerId (gameContext st)); [exact F|].
  cbv zeta. destruct (0.3 <? _)%float eqn:G; [|exact F].
  apply Forall_app. split; [exact F|]. repeat constructor.
  unfold threat_in_range. simpl threatLevel.
  apply clamp_in01; [exact G|reflexivity].
Qed.

Lemma getThreatAssessment_in_range st :
  Forall threat_in_range (fst (getThreatAssessment st)).
Proof.
  unfold getThreatAssessment. simpl fst.
  eapply Permutation_Forall; [symmetry; apply sort_desc_perm|].
  assert (G : forall profiles acc, Forall threat_in_range acc ->
                Forall threat_in_range
                  (fold_left (assess_profile st) profiles acc)).
  { induction profiles as [|e l IH]; intros acc F; simpl; [exact F|].
    apply IH, assess_profile_in_range, F. }
  apply G. constructor.
Qed.

(** *** Every state of an instance is sound *)

Lemma generateStrategy_sound context st :
  sound st -> sound (snd (generateStrategy context st)).
Proof.
  intros S. unfold generateStrategy. cbv zeta. simpl snd.
  apply addMemory_sound; [|exact S]. split; reflexivity.
Qed.

Lemma step_sound c st : sound st -> sound (step c st).
Proof.
  intros S. destruct c; simpl.
  - apply updateGameContext_sound, S.
  - apply analyzeSpeech_sound, S.
  - apply analyzeVotingPattern_sound, S.
  - apply deduceRoles_sound, S.
  - apply generateStrategy_sound, S.
  - exact S.
  - exact S.
Qed.

Lemma reachable_sound st : reachable st -> sound st.
Proof.
  induction 1 as [myRole myPlayerId teammates|c st R IH].
  - unfold sound, new. simpl. repeat split; try constructor. lia.
  - apply step_sound, IH.
Qed.

Lemma run_reachable myRole myPlayerId teammates calls :
  reachable (run myRole myPlayerId teammates calls).
Proof.
  unfold run.
  assert (G : forall st, reachable st ->
                reachable (fold_left (fun st c => step c st) calls st)).
  { induction calls as [|c l IH]; intros st R; simpl; [exact R|].
    apply IH. constructor. exact R. }
  apply G. constructor.
Qed.

(** *** The cap on the store *)

(** C1: the store never holds more than 100 entries, in any state of an
    instance and after each of any sequence of insertions; an insertion
    that takes the total past 100 leaves the first 80 entries of the
    arrangement by descending [relevance * confidence]: 80 entries, each
    followed by one that is not above it, and every entry left out is at
    most as important as every entry kept, provided no key is [NaN]; none
    is in a state of an instance when the inserted scores lie in
    [[0, 1]]. *)
Theorem memory_never_exceeds_cap :
  (forall st, reachable st -> (List.length (memories st) <= 100)%nat)
  /\ (forall st inserts (k : nat),
        (List.length (memories st) <= 100)%nat ->
        (List.length
           (memories
              (fold_left (fun s p => addMemory p s) (firstn k inserts) st))
         <= 100)%nat)
  /\ (forall st params,
        let pushed := push (memories st) (new_entry params st) in
        let kept := memories (addMemory params st) in
        (100 < List.length pushed)%nat ->
        kept = firstn 80 (sort_desc importance pushed)
        /\ List.length kept = 80%nat
        /\ Sorted (not_below importance) kept
        /\ exists dropped,
             Permutation (kept ++ dropped) pushed
             /\ (Forall (key_defined importance) pushed ->
                 forall m d, In m kept -> In d dropped ->
                             at_least importance m d))
  /\ (forall st params,
        reachable st -> params_in_range params ->
        Forall (key_defined importance)
          (push (memories st) (new_entry params st))).
Proof.
  split; [|split; [|split]].
  - intros st R. apply (reachable_sound st R).
  - intros st inserts k. generalize (firstn k inserts). clear inserts k.
    intros l. revert st. induction l as [|p l IH]; intros st L; simpl.
    + exact L.
    + apply IH, addMemory_length, L.
  - intros st params pushed kept O.
    assert (E : kept = firstn 80 (sort_desc importance pushed)).
    { unfold kept. rewrite addMemory_memories. cbv zeta. fold pushed.
      replace (100 <? Z.of_nat (List.length pushed)) with true;
        [reflexivity|].
      symmetry. apply Z.ltb_lt. lia. }
    split; [exact E|]. rewrite E. split; [|split].
    + rewrite length_firstn, sort_desc_length. lia.
    + apply Sorted_firstn, sort_desc_sorted.
    + exists (skipn 80 (sort_desc importance pushed)). split.
      * rewrite firstn_skipn. apply sort_desc_perm.
      * intros N. apply StronglySorted_app_inv.
        rewrite firstn_skipn. apply sort_desc_strongly. exact N.
  - intros st params R P. destruct (reachable_sound st R) as (_ & M & _).
    unfold push. apply Forall_app. split.
    + eapply Forall_impl; [|exact M]. intros m [C V].
      apply mul_in01_defined; assumption.
    + repeat constructor. destruct P as [C V].
      apply mul_in01_defined; assumption.
Qed.

(** *** Scores stay within the unit interval *)

(** C2: in every state of an instance each stored entry has its confidence
    and its relevance in [[0, 1]], and so has the confidence of each
    profile; every threat level that [getThreatAssessment] returns and every
    confidence that [deduceRoles] returns lies in [[0, 1]] as well. *)
Theorem scores_stay_in_unit_interval :
  forall st,
    reachable st ->
    Forall entry_in_range (memories st)
    /\ Forall profile_in_range (playerProfiles st)
    /\ Forall threat_in_range (fst (getThreatAssessment st))
    /\ (forall alivePlayers allSpeeches allVotes,
          Forall deduction_in_range
            (fst (deduceRoles alivePlayers allSpeeches allVotes st))).
Proof.
  intros st R. destruct (reachable_sound st R) as (_ & M & P & _).
  split; [exact M|]. split; [exact P|].
  split; [apply getThreatAssessment_in_range|].
  intros. apply deduceRoles_in_range.
Qed.

(** *** Contradictions are never written to a profile *)

(** C10: in every state of an instance every profile has an empty list of
    contradictions; hence the test of [getThreatAssessment] for more than
    two contradictions fails for every stored profile, and the test of
    [analyzePlayerRole] for more than one fails for every player, so neither
    the 0.3 of threat nor the 0.3 of werewolf score is ever added. *)
Theorem contradictions_are_never_recorded :
  forall st,
    reachable st ->
    Forall profile_clean (playerProfiles st)
    /\ (forall playerId profile,
          In (playerId, profile) (playerProfiles st) ->
          speech_inconsistent profile = false)
    /\ (forall playerId, has_contradictions playerId st = false).
Proof.
  intros st R. destruct (reachable_sound st R) as (_ & _ & _ & C).
  split; [exact C|]. rewrite Forall_forall in C. split.
  - intros playerId profile I. apply C in I. unfold profile_clean in I.
    simpl in I. unfold speech_inconsistent. rewrite I. reflexivity.
  - intros playerId. unfold has_contradictions.
    destruct (Map_get playerId (playerProfiles st)) as [profile|] eqn:G;
      [|reflexivity].
    apply Map_get_In, C in G. unfold profile_clean in G. simpl in G.
    rewrite G. reflexivity.
Qed.

(** *** The summary *)

(** C9: [getMemorySummary] called twice with the same argument returns
    the same string, also with any calls in between that only read
    ([getMemorySummary], [getThreatAssessment]); each call returns the
    instance as it received it; and the string depends on the stored
    entries only. *)
Theorem summary_is_repeatable :
  forall maxEntries st,
    let first := getMemorySummary maxEntries st in
    let second := getMemorySummary maxEntries (snd first) in
    fst second = fst first
    /\ snd first = st
    /\ snd second = st
    /\ (forall calls,
          Forall read_only calls ->
          fold_left (fun s c => step c s) calls (snd first) = st
          /\ fst (getMemorySummary maxEntries
                    (fold_left (fun s c => step c s) calls (snd first)))
             = fst first)
    /\ (forall st',
          memories st' = memories st ->
          fst (getMemorySummary maxEntries st') = fst first).
Proof.
  intros maxEntries st first second.
  split; [reflexivity|]. split; [reflexivity|]. split; [reflexivity|].
  split.
  - intros calls R.
    assert (E : fold_left (fun s c => step c s) calls (snd first) = st).
    { change (snd first) with st. induction R as [|c l Rc Rl IH]; simpl.
      - reflexivity.
      - destruct c; try contradiction; exact IH. }
    split; [exact E|]. rewrite E. reflexivity.
  - intros st' E. unfold first, getMemorySummary. simpl fst. rewrite E.
    reflexivity.
Qed.

(** *** Contradictions between a speech and the speaker's earlier ones *)







End Memory.

(** ** The statements at concrete inputs *)

Lemma memory_never_exceeds_cap_example :
  Nat.le
    (List.length
       (Mem.memories
          (Mem.run VILLAGER 1 None
             (repeat
                (Mem.call_generateStrategy
                   (Mem.mkStrategyContext DAY [] [] []))
                100))))
    100
  /\ List.length
       (Mem.memories
          (Mem.addMemory
             (Mem.mkParams Mem.contradiction (Some 3) "检测到矛盾"
                0.8%float 0.9%float Mem.deduction)
             (Mem.run VILLAGER 1 None
                (repeat
                   (Mem.call_generateStrategy
                      (Mem.mkStrategyContext DAY [] [] []))
                   100))))
     = 80%nat.
Proof.
  split.
  - apply (proj1 (@memory_never_exceeds_cap example_host)).
    apply run_reachable.
  - apply (proj1 (proj2 (proj2 (@memory_never_exceeds_cap example_host)))
             (Mem.run VILLAGER 1 None
                (repeat
                   (Mem.call_generateStrategy
                      (Mem.mkStrategyContext DAY [] [] []))
                   100))
             (Mem.mkParams Mem.contradiction (Some 3) "检测到矛盾"
                0.8%float 0.9%float Mem.deduction)).
    vm_compute. lia.
Defined.

Lemma scores_stay_in_unit_interval_example :
  Forall entry_in_range
    (Mem.memories
       (Mem.run WEREWOLF 1 (Some [4])
          [Mem.call_analyzeSpeech (mkSpeech 3 "我是预言家，昨晚查验了4号")
             [(1, [mkSpeech 3 "我是预言家，昨晚查验了4号"])] [];
           Mem.call_deduceRoles [mkPlayerInfo 3 true]
             [(1, [mkSpeech 3 "我是预言家，昨晚查验了4号";
                   mkSpeech 3 "我查验的结果不会错"])] []])).
Proof.
  apply (@scores_stay_in_unit_interval example_host
           (Mem.run WEREWOLF 1 (Some [4])
              [Mem.call_analyzeSpeech (mkSpeech 3 "我是预言家，昨晚查验了4号")
                 [(1, [mkSpeech 3 "我是预言家，昨晚查验了4号"])] [];
               Mem.call_deduceRoles [mkPlayerInfo 3 true]
                 [(1, [mkSpeech 3 "我是预言家，昨晚查验了4号";
                       mkSpeech 3 "我查验的结果不会错"])] []])).
  apply run_reachable.
Defined.

Lemma contradictions_are_never_recorded_example :
  Forall profile_clean
    (Mem.playerProfiles
       (Mem.run VILLAGER 1 None
          [Mem.call_analyzeSpeech (mkSpeech 3 "我不是预言家")
             [(1, [mkSpeech 3 "我不是预言家"])] [];
           Mem.call_analyzeSpeech (mkSpeech 3 "我是预言家")
             [(1, [mkSpeech 3 "我不是预言家"; mkSpeech 3 "我是预言家"])] []])).
Proof.
  apply (@contradictions_are_never_recorded example_host
           (Mem.run VILLAGER 1 None
              [Mem.call_analyzeSpeech (mkSpeech 3 "我不是预言家")
                 [(1, [mkSpeech 3 "我不是预言家"])] [];
               Mem.call_analyzeSpeech (mkSpeech 3 "我是预言家")
                 [(1, [mkSpeech 3 "我不是预言家"; mkSpeech 3 "我是预言家"])]
                 []])).
  apply run_reachable.
Defined.

Lemma summary_is_repeatable_example :
  fst (Mem.getMemorySummary (Some 5)
         (snd (Mem.getMemorySummary (Some 5)
                 (Mem.run VILLAGER 1 None
                    [Mem.call_analyzeSpeech (mkSpeech 3 "我是预言家")
                       [(1, [mkSpeech 3 "我是预言家"])] []]))))
  = fst (Mem.getMemorySummary (Some 5)
           (Mem.run VILLAGER 1 None
              [Mem.call_analyzeSpeech (mkSpeech 3 "我是预言家")
                 [(1, [mkSpeech 3 "我是预言家"])] []])).
Proof.
  exact (proj1 (@summary_is_repeatable example_host (Some 5)
                  (Mem.run VILLAGER 1 None
                     [Mem.call_analyzeSpeech (mkSpeech 3 "我是预言家")
                        [(1, [mkSpeech 3 "我是预言家"])] []]))).
Defined.



(** * Further properties *)

(** ** The message log of the coordination engine *)

Section MessageLog.
Import WerewolfCommunicationSystem.
Context `{Externals}.

Lemma bucket_of_set r k b (h : list (Round * list WerewolfMessage)) :
  bucket_of r (Map_set k b h) = if r =? k then b else bucket_of r h.
Proof.
  unfold bucket_of. rewrite Map_get_set. destruct (r =? k); reflexivity.
Qed.

Lemma addMessage_messages sender content round type st :
  messages (addMessage sender content round type st)
  = (messages st ++ [logged_message sender content round type st])%list.
Proof. reflexivity. Qed.

Lemma addMessage_bucket sender content round type st r :
  bucket_of r (communicationHistory (addMessage sender content round type st))
  = if r =? round
    then (bucket_of round (communicationHistory st)
          ++ [logged_message sender content round type st])%list
    else bucket_of r (communicationHistory st).
Proof.
  unfold addMessage. cbn [communicationHistory].
  fold (logged_message sender content round type st).
  rewrite bucket_of_set. unfold push.
  destruct (r =? round) eqn:E.
  - unfold Map_has, bucket_of.
    destruct (Map_get round (communicationHistory st)) as [b|] eqn:G; simpl.
    + rewrite G. reflexivity.
    + rewrite Map_get_set, Z.eqb_refl. reflexivity.
  - unfold Map_has.
    destruct (Map_get round (communicationHistory st)); simpl;
      [reflexivity|].
    rewrite bucket_of_set, E. reflexivity.
Qed.

Lemma filter_filter_round r cur (l : list WerewolfMessage) :
  filter (of_round r) (filter (fun m => cur - msg_round m <=? 3) l)
  = if 3 <? cur - r then [] else filter (of_round r) l.
Proof.
  induction l as [|m l IH]; simpl.
  - destruct (3 <? cur - r); reflexivity.
  - destruct (of_round r m) eqn:E;
      destruct (cur - msg_round m <=? 3) eqn:K; simpl; rewrite ?E, IH;
      try reflexivity; unfold of_round in E; apply Z.eqb_eq in E; subst r.
    + replace (3 <? cur - msg_round m) with false; [reflexivity|].
      symmetry. apply Z.ltb_ge. apply Z.leb_le in K. lia.
    + replace (3 <? cur - msg_round m) with true; [reflexivity|].
      symmetry. apply Z.ltb_lt. apply Z.leb_gt in K. lia.
Qed.

Lemma cleanup_bucket cur st r :
  bucket_of r (communicationHistory (cleanup cur st))
  = if 3 <? cur - r then [] else bucket_of r (communicationHistory st).
Proof.
  unfold cleanup, bucket_of. cbn [communicationHistory].
  rewrite Map_get_prune.
  destruct (3 <? cur - r) eqn:S.
  - destruct (existsb (Z.eqb r) (Map_keys (communicationHistory st)))
      eqn:X; simpl; [reflexivity|].
    rewrite Map_get_None_keys; [reflexivity|]. intros I.
    assert (existsb (Z.eqb r) (Map_keys (communicationHistory st)) = true)
      by (apply existsb_exists; exists r; split;
          [exact I|apply Z.eqb_refl]).
    congruence.
  - rewrite andb_false_r. reflexivity.
Qed.

Lemma step_history_in_step c st :
  history_in_step st -> history_in_step (step c st).
Proof.
  intros I. destruct c; simpl; try exact I.
  - intros r. unfold generateWerewolfCommunication. cbn [snd].
    rewrite addMessage_bucket, addMessage_messages, filter_app. simpl.
    unfold of_round at 2. unfold logged_message at 2. cbn [msg_round].
    rewrite (Z.eqb_sym (ctx_round context) r).
    destruct (r =? ctx_round context) eqn:E.
    + apply Z.eqb_eq in E. subst r. rewrite I. reflexivity.
    + rewrite app_nil_r. apply I.
  - unfold negotiateKillTarget.
    destruct (makeTeamDecision _ _); exact I.
  - intros r. rewrite cleanup_bucket. unfold cleanup. cbn [messages].
    rewrite filter_filter_round. destruct (3 <? currentRound - r);
      [reflexivity|apply I].
Qed.

Lemma reachable_history_in_step st : reachable st -> history_in_step st.
Proof.
  induction 1 as [|c st R IH].
  - intros r. reflexivity.
  - apply step_history_in_step, IH.
Qed.

(** X1: in every state of an instance, [getCommunicationHistory(round)]
    returns exactly the logged messages of that round, in the order they
    were logged, also after any [cleanup]; round 0 is falsy, so
    [getCommunicationHistory(0)] returns the whole log, as the call without
    argument does. *)
Theorem history_of_round_is_log_of_round :
  forall st,
    reachable st ->
    (forall r,
       r <> 0 ->
       getCommunicationHistory (Some r) st
       = filter (of_round r) (messages st))
    /\ getCommunicationHistory (Some 0) st = messages st
    /\ getCommunicationHistory None st = messages st.
Proof.
  intros st R. split; [|split; reflexivity].
  intros r N. unfold getCommunicationHistory.
  rewrite (truthy_true r N).
  apply (reachable_history_in_step st R r).
Qed.

(** X2: a call of [generateWerewolfCommunication] appends one message to
    the log and to the bucket of the context's round, and changes nothing
    else: the message carries the sender, the round, and the content and
    type of the communication returned. *)
Theorem communication_is_logged :
  forall sender context allSpeeches allVotes st,
    let result :=
      generateWerewolfCommunication sender context allSpeeches allVotes st in
    exists m,
      messages (snd result) = (messages st ++ [m])%list
      /\ bucket_of (ctx_round context) (communicationHistory (snd result))
         = (bucket_of (ctx_round context) (communicationHistory st) ++ [m])
           %list
      /\ (forall r,
            r <> ctx_round context ->
            bucket_of r (communicationHistory (snd result))
            = bucket_of r (communicationHistory st))
      /\ teamDecisions (snd result) = teamDecisions st
      /\ senderId m = sender
      /\ msg_round m = ctx_round context
      /\ msg_content m = comm_content (fst result)
      /\ msg_type m = messageType (fst result).
Proof.
  intros sender context allSpeeches allVotes st result.
  unfold result, generateWerewolfCommunication. cbn [fst snd].
  eexists. split; [apply addMessage_messages|]. split; [|split].
  - rewrite addMessage_bucket, Z.eqb_refl. reflexivity.
  - intros r N. rewrite addMessage_bucket.
    apply Z.eqb_neq in N. rewrite N. reflexivity.
  - repeat split.
Qed.

End MessageLog.

(** ** The scan of the situation *)

Section Situation.
Import WerewolfCommunicationSystem.
Context `{Externals} (context : WerewolfCommunicationContext).

Lemma raise_threat_fold_fields content pid team a :
  let a' :=
    fold_left
      (fun acc werewolfId =>
         if String_includes content (Z_toString werewolfId)
         then raise_threat
                (Z_toString pid ++ "号怀疑" ++ Z_toString werewolfId
                 ++ "号是狼人") acc
         else acc)
      team a in
  godRoleCandidates a' = godRoleCandidates a
  /\ suspiciousPlayers a' = suspiciousPlayers a
  /\ safePlayers a' = safePlayers a
  /\ threatLevel a'
     = if existsb (fun w => String_includes content (Z_toString w)) team
       then high else threatLevel a.
Proof.
  cbv zeta. revert a.
  induction team as [|w team IH]; intros a; cbn [fold_left existsb].
  - auto.
  - match goal with
    | |- context [fold_left _ team ?x] => destruct (IH x) as (G & S & F & T)
    end.
    rewrite G, S, F, T.
    destruct (String_includes content (Z_toString w)); cbn [orb];
      [|auto].
    unfold raise_threat; cbn [godRoleCandidates suspiciousPlayers safePlayers
                                threatLevel].
    destruct (existsb _ team); auto.
Qed.

Lemma add_godRoleCandidate_fields p a :
  suspiciousPlayers (add_godRoleCandidate p a) = suspiciousPlayers a
  /\ safePlayers (add_godRoleCandidate p a) = safePlayers a
  /\ threatLevel (add_godRoleCandidate p a) = threatLevel a
  /\ (outsider context p -> Forall (outsider context) (godRoleCandidates a) ->
      Forall (outsider context)
        (godRoleCandidates (add_godRoleCandidate p a))).
Proof.
  unfold add_godRoleCandidate. destruct (negb _); simpl; repeat split; auto.
  intros O F. unfold push. apply Forall_app. split; [exact F|].
  repeat constructor. exact O.
Qed.

Lemma scan_speech_fields a speech :
  suspiciousPlayers (scan_speech context a speech) = suspiciousPlayers a
  /\ safePlayers (scan_speech context a speech) = safePlayers a
  /\ threatLevel (scan_speech context a speech)
     = (if accuses context speech then high else threatLevel a)
  /\ (Forall (outsider context) (godRoleCandidates a) ->
      Forall (outsider context)
        (godRoleCandidates (scan_speech context a speech))).
Proof.
  unfold scan_speech, accuses.
  destruct (includes (speech_playerId speech) (werewolfTeam context)) eqn:T;
    cbn [negb andb]; [auto|].
  set (content := toLowerCase (speech_content speech)).
  set (a1 := if seer_marker content
             then add_godRoleCandidate (speech_playerId speech) a else a).
  set (a2 := if witch_marker content
             then add_godRoleCandidate (speech_playerId speech) a1 else a1).
  assert (F1 : suspiciousPlayers a1 = suspiciousPlayers a
               /\ safePlayers a1 = safePlayers a
               /\ threatLevel a1 = threatLevel a
               /\ (Forall (outsider context) (godRoleCandidates a) ->
                   Forall (outsider context) (godRoleCandidates a1))).
  { unfold a1. destruct (seer_marker content); [|auto].
    destruct (add_godRoleCandidate_fields (speech_playerId speech) a)
      as (A & B & C & D).
    repeat split; auto. }
  assert (F2 : suspiciousPlayers a2 = suspiciousPlayers a
               /\ safePlayers a2 = safePlayers a
               /\ threatLevel a2 = threatLevel a
               /\ (Forall (outsider context) (godRoleCandidates a) ->
                   Forall (outsider context) (godRoleCandidates a2))).
  { destruct F1 as (A1 & B1 & C1 & D1). unfold a2.
    destruct (witch_marker content); [|auto].
    destruct (add_godRoleCandidate_fields (speech_playerId speech) a1)
      as (A & B & C & D).
    rewrite A, B, C. repeat split; auto;
      try (intros F0; apply D; [exact T|auto]). }
  destruct F2 as (A2 & B2 & C2 & D2).
  destruct (suspicion_marker content); cbn [negb andb]; [|auto].
  destruct (raise_threat_fold_fields content (speech_playerId speech)
              (werewolfTeam context) a2) as (G & S & F & L).
  rewrite G, S, F, L, A2, B2, C2. auto.
Qed.

Lemma scan_speeches_fields speeches a :
  let a' := fold_left (scan_speech context) speeches a in
  suspiciousPlayers a' = suspiciousPlayers a
  /\ safePlayers a' = safePlayers a
  /\ threatLevel a'
     = (if existsb (accuses context) speeches then high else threatLevel a)
  /\ (Forall (outsider context) (godRoleCandidates a) ->
      Forall (outsider context) (godRoleCandidates a')).
Proof.
  revert a. induction speeches as [|s l IH]; intros a; simpl; [auto|].
  destruct (IH (scan_speech context a s)) as (A & B & C & D).
  destruct (scan_speech_fields a s) as (A1 & B1 & C1 & D1).
  rewrite A, B, C, A1, B1, C1. repeat split; auto.
  destruct (accuses context s); simpl; [|reflexivity].
  destruct (existsb _ l); reflexivity.
Qed.

Lemma scan_vote_fields a vote :
  godRoleCandidates (scan_vote context a vote) = godRoleCandidates a
  /\ safePlayers (scan_vote context a vote) = safePlayers a
  /\ threatLevel (scan_vote context a vote) = threatLevel a
  /\ forall p,
       includes p (suspiciousPlayers (scan_vote context a vote))
       = includes p (suspiciousPlayers a)
         || (against_team context vote && (voterId vote =? p)).
Proof.
  unfold scan_vote, against_team, add_suspiciousPlayer.
  destruct (includes (targetId vote) (werewolfTeam context)); simpl.
  - destruct (includes (voterId vote) (suspiciousPlayers a)) eqn:I; simpl;
      repeat split; auto; intros p.
    + destruct (voterId vote =? p) eqn:E; [|rewrite orb_false_r; reflexivity].
      apply Z.eqb_eq in E. subst p. rewrite I. reflexivity.
    + unfold push, includes. rewrite existsb_app. simpl.
      rewrite orb_false_r, (Z.eqb_sym p). reflexivity.
  - repeat split; auto. intros p. rewrite orb_false_r. reflexivity.
Qed.

Lemma scan_votes_fields votes a :
  let a' := fold_left (scan_vote context) votes a in
  godRoleCandidates a' = godRoleCandidates a
  /\ safePlayers a' = safePlayers a
  /\ threatLevel a' = threatLevel a
  /\ forall p,
       includes p (suspiciousPlayers a')
       = includes p (suspiciousPlayers a)
         || existsb (fun v => against_team context v && (voterId v =? p))
              votes.
Proof.
  revert a. induction votes as [|v l IH]; intros a; simpl.
  - repeat split; auto. intros p. rewrite orb_false_r. reflexivity.
  - destruct (IH (scan_vote context a v)) as (A & B & C & D).
    destruct (scan_vote_fields a v) as (A1 & B1 & C1 & D1).
    rewrite A, B, C, A1, B1, C1. repeat split; auto.
    intros p. rewrite D, D1, orb_assoc. reflexivity.
Qed.

Lemma scan_players_fields players a :
  let a' := fold_left (scan_player context) players a in
  godRoleCandidates a' = godRoleCandidates a
  /\ suspiciousPlayers a' = suspiciousPlayers a
  /\ threatLevel a' = threatLevel a
  /\ safePlayers a'
     = (safePlayers a
        ++ map id
             (filter
                (fun p =>
                   negb (includes (id p) (werewolfTeam context))
                   && (negb (includes (id p) (godRoleCandidates a))
                       && negb (includes (id p) (suspiciousPlayers a))))
                players))%list.
Proof.
  revert a. induction players as [|p l IH]; intros a; simpl.
  - rewrite app_nil_r. auto.
  - destruct (IH (scan_player context a p)) as (A & B & C & D).
    rewrite A, B, C, D. unfold scan_player.
    destruct (includes (id p) (werewolfTeam context)); simpl; [auto|].
    destruct (negb (includes (id p) (godRoleCandidates a))
              && negb (includes (id p) (suspiciousPlayers a))); simpl;
      [|auto].
    unfold push. rewrite <- app_assoc. auto.
Qed.

(** What the scan returns, field by field. *)
Lemma analyzeGameSituation_fields allSpeeches allVotes :
  let a := analyzeGameSituation context allSpeeches allVotes in
  Forall (outsider context) (godRoleCandidates a)
  /\ threatLevel a
     = (if existsb (accuses context) (all_speeches allSpeeches)
        then high else medium)
  /\ (forall p,
        includes p (suspiciousPlayers a)
        = voted_against_team context allVotes p)
  /\ safePlayers a
     = map id
         (filter
            (fun p =>
               negb (includes (id p) (werewolfTeam context))
               && (negb (includes (id p) (godRoleCandidates a))
                   && negb (includes (id p) (suspiciousPlayers a))))
            (alivePlayers context)).
Proof.
  unfold analyzeGameSituation. cbv zeta. rewrite !fold_left_concat.
  set (a0 := mkAnalysis medium [] [] [] []).
  fold (all_speeches allSpeeches). fold (all_votes allVotes).
  set (a1 := fold_left (scan_speech context) (all_speeches allSpeeches) a0).
  set (a2 := fold_left (scan_vote context) (all_votes allVotes) a1).
  destruct (scan_speeches_fields (all_speeches allSpeeches) a0)
    as (S1 & F1 & T1 & G1). fold a1 in S1, F1, T1, G1.
  destruct (scan_votes_fields (all_votes allVotes) a1)
    as (G2 & F2 & T2 & S2). fold a2 in G2, F2, T2, S2.
  destruct (scan_players_fields (alivePlayers context) a2)
    as (G3 & S3 & T3 & F3).
  rewrite G3, S3, T3, F3, G2, T2, T1, F2, F1. simpl.
  split; [apply G1; constructor|]. split; [reflexivity|].
  split; [|reflexivity].
  intros p. rewrite S2, S1. reflexivity.
Qed.

Lemma suggestion_outside_team sender allSpeeches allVotes st t :
  comm_suggestedTarget
    (fst (generateWerewolfCommunication sender context allSpeeches allVotes
            st))
  = Some t ->
  includes t (werewolfTeam context) = false.
Proof.
  unfold generateWerewolfCommunication. cbn [fst].
  destruct (analyzeGameSituation_fields allSpeeches allVotes)
    as (G & _ & _ & F).
  unfold generateCommunicationContent.
  destruct (godRoleCandidates (analyzeGameSituation context allSpeeches
                                 allVotes)) as [|g gs] eqn:E.
  - destruct (threatLevel _); simpl;
      try discriminate;
      (destruct (safePlayers _) as [|p ps]; simpl; [discriminate|]);
      intros X; injection X as <-;
      (assert (I : In p (p :: ps)) by (left; reflexivity));
      rewrite F in I; apply in_map_iff in I;
      destruct I as (q & <- & I); apply filter_In in I;
      destruct I as (_ & I); apply andb_true_iff in I;
      destruct I as (I & _); apply negb_true_iff in I; exact I.
  - simpl. intros X. injection X as <-.
    inversion G; assumption.
Qed.

(** X3: whatever was said and voted, the target that
    [generateWerewolfCommunication] suggests is never a member of the wolf
    team, and it is a player who spoke or a player of the list of the
    alive. *)
Theorem communication_never_targets_the_team :
  forall sender allSpeeches allVotes st t,
    comm_suggestedTarget
      (fst (generateWerewolfCommunication sender context allSpeeches
              allVotes st))
    = Some t ->
    outsider context t
    /\ (In t (map speech_playerId (all_speeches allSpeeches))
        \/ In t (map id (alivePlayers context))).
Proof.
  intros sender allSpeeches allVotes st t E.
  split; [exact (suggestion_outside_team _ _ _ _ _ E)|].
  revert E. unfold generateWerewolfCommunication. cbn [fst].
  pose proof (analysis_first_god_role context allSpeeches allVotes) as G.
  destruct (analyzeGameSituation_fields allSpeeches allVotes)
    as (_ & _ & _ & F).
  unfold generateCommunicationContent.
  destruct (godRoleCandidates (analyzeGameSituation context allSpeeches
                                 allVotes)) as [|g gs].
  - destruct (threatLevel _); simpl; try discriminate;
      (destruct (safePlayers _) as [|p ps]; simpl; [discriminate|]);
      intros X; injection X as <-; right;
      (assert (I : In p (p :: ps)) by (left; reflexivity));
      rewrite F in I; apply in_map_iff in I;
      destruct I as (q & <- & I); apply filter_In in I;
      destruct I as (I & _); apply in_map; exact I.
  - simpl. intros X. injection X as <-. left.
    cbn [hd_error] in G.
    destruct (find (reveals_god_role context) (all_speeches allSpeeches))
      as [s|] eqn:Fd; [|discriminate].
    injection G as ->. apply find_some in Fd. apply in_map, Fd.
Qed.

(** X4: when no outsider revealed a god role and none accused a wolf, the
    communication suggests, at medium priority, the first listed player who
    is outside the team and never voted against a member of it; when there
    is no such player it is a low-priority strategy remark without a
    target. *)
Theorem quiet_round_suggests_first_safe_player :
  forall sender allSpeeches allVotes st,
    find (reveals_god_role context) (all_speeches allSpeeches) = None ->
    existsb (accuses context) (all_speeches allSpeeches) = false ->
    let c :=
      fst (generateWerewolfCommunication sender context allSpeeches allVotes
             st) in
    match filter (safe_target context allVotes) (alivePlayers context) with
    | player :: _ =>
        messageType c = target_suggestion /\ priority c = medium
        /\ comm_suggestedTarget c = Some (id player)
    | [] =>
        messageType c = strategy /\ priority c = low
        /\ comm_suggestedTarget c = None
    end.
Proof.
  intros sender allSpeeches allVotes st N A.
  unfold generateWerewolfCommunication. cbn [fst]. cbv zeta.
  destruct (analyzeGameSituation_fields allSpeeches allVotes)
    as (_ & T & S & F).
  pose proof (analysis_first_god_role context allSpeeches allVotes) as G.
  rewrite N in G. cbn [option_map] in G.
  unfold generateCommunicationContent.
  destruct (godRoleCandidates (analyzeGameSituation context allSpeeches
                                 allVotes)) as [|g gs];
    [|discriminate].
  rewrite T, A, F.
  match goal with
  | |- context [filter ?f (alivePlayers context)] =>
      assert (Q : filter f (alivePlayers context)
                  = filter (safe_target context allVotes)
                      (alivePlayers context))
        by (apply filter_ext; intros p; rewrite S; reflexivity)
  end.
  rewrite Q.
  destruct (filter (safe_target context allVotes) (alivePlayers context));
    simpl; auto.
Qed.

(** X5: the communication is a call for coordination exactly when no
    outsider revealed a god role and some outsider voiced suspicion naming a
    wolf by number; it then has high priority and names no target. *)
Theorem coordination_iff_accused_without_god_role :
  forall sender allSpeeches allVotes st,
    let c :=
      fst (generateWerewolfCommunication sender context allSpeeches allVotes
             st) in
    (messageType c = coordination
     <-> find (reveals_god_role context) (all_speeches allSpeeches) = None
         /\ existsb (accuses context) (all_speeches allSpeeches) = true)
    /\ (messageType c = coordination ->
        priority c = high /\ comm_suggestedTarget c = None).
Proof.
  intros sender allSpeeches allVotes st.
  unfold generateWerewolfCommunication. cbn [fst]. cbv zeta.
  destruct (analyzeGameSituation_fields allSpeeches allVotes)
    as (_ & T & _ & _).
  pose proof (analysis_first_god_role context allSpeeches allVotes) as G.
  unfold generateCommunicationContent.
  destruct (godRoleCandidates (analyzeGameSituation context allSpeeches
                                 allVotes)) as [|g gs].
  - cbn [hd_error] in G.
    destruct (find (reveals_god_role context) (all_speeches allSpeeches));
      [discriminate|].
    rewrite T.
    destruct (existsb (accuses context) (all_speeches allSpeeches)).
    + simpl. repeat split; auto.
    + destruct (safePlayers _); simpl; repeat split;
        try discriminate; intros X; destruct X; discriminate.
  - cbn [hd_error] in G.
    destruct (find (reveals_god_role context) (all_speeches allSpeeches));
      [|discriminate].
    simpl. repeat split; try discriminate; intros X; destruct X;
      discriminate.
Qed.

End Situation.

Lemma communication_never_targets_the_team_example :
  let context :=
    Comm.mkContext 2 [mkPlayerInfo 1 true; mkPlayerInfo 5 true]
      [1; 4] [1; 4] [5] "" medium in
  Comm.comm_suggestedTarget
    (fst (Comm.generateWerewolfCommunication 1 context
            [(1, [mkSpeech 1 "我是预言家"; mkSpeech 5 "我有药水"])] []
            Comm.new))
  = Some 5
  /\ outsider context 5.
Proof.
  cbv zeta. split; [reflexivity|].
  exact (proj1
           (@communication_never_targets_the_team example_host
              (Comm.mkContext 2 [mkPlayerInfo 1 true; mkPlayerInfo 5 true]
                 [1; 4] [1; 4] [5] "" medium)
              1 [(1, [mkSpeech 1 "我是预言家"; mkSpeech 5 "我有药水"])] []
              Comm.new 5 eq_refl)).
Defined.

Lemma quiet_round_suggests_first_safe_player_example :
  let context :=
    Comm.mkContext 2
      [mkPlayerInfo 1 true; mkPlayerInfo 3 true; mkPlayerInfo 5 true]
      [1; 4] [1; 4] [3; 5] "" medium in
  let c :=
    fst (Comm.generateWerewolfCommunication 1 context
           [(1, [mkSpeech 3 "过"])] [(1, [mkVote 3 4; mkVote 5 3])]
           Comm.new) in
  Comm.messageType c = Comm.target_suggestion /\ Comm.priority c = medium
  /\ Comm.comm_suggestedTarget c = Some 5.
Proof.
  exact (@quiet_round_suggests_first_safe_player example_host
           (Comm.mkContext 2
              [mkPlayerInfo 1 true; mkPlayerInfo 3 true; mkPlayerInfo 5 true]
              [1; 4] [1; 4] [3; 5] "" medium)
           1 [(1, [mkSpeech 3 "过"])] [(1, [mkVote 3 4; mkVote 5 3])]
           Comm.new eq_refl eq_refl).
Defined.

(** ** The plan for the day *)

Section DayPlan.
Import WerewolfCommunicationSystem.

Lemma Map_keys_set {V} (k : Z) (v : V) (m : list (Z * V)) :
  Map_keys (Map_set k v m)
  = if Map_has k m then Map_keys m else (Map_keys m ++ [k])%list.
Proof.
  unfold Map_has. induction m as [|[k0 v0] m IH]; simpl; [reflexivity|].
  destruct (k =? k0) eqn:E; simpl.
  - apply Z.eqb_eq in E. subst k0. reflexivity.
  - rewrite IH. destruct (Map_get k m); reflexivity.
Qed.

Lemma Map_has_In_keys {V} (k : Z) (m : list (Z * V)) :
  Map_has k m = true <-> In k (Map_keys m).
Proof.
  unfold Map_has. split.
  - intros M. destruct (in_dec Z.eq_dec k (Map_keys m)) as [I|N]; [exact I|].
    rewrite (Map_get_None_keys _ _ N) in M. discriminate.
  - intros I. apply Map_get_In_keys in I. destruct I as (v & ->).
    reflexivity.
Qed.

Lemma Map_set_NoDup {V} (k : Z) (v : V) (m : list (Z * V)) :
  NoDup (Map_keys m) -> NoDup (Map_keys (Map_set k v m)).
Proof.
  intros N. rewrite Map_keys_set. destruct (Map_has k m) eqn:M; [exact N|].
  apply NoDup_app; [exact N|repeat constructor; simpl; tauto|].
  intros x I [<-|[]]. apply Map_has_In_keys in I. congruence.
Qed.

Lemma Map_get_fold_set {V} (f : Z -> V) (ks : list Z) (m : list (Z * V))
  (w : Z) :
  Map_get w (fold_left (fun acc k => Map_set k (f k) acc) ks m)
  = if includes w ks then Some (f w) else Map_get w m.
Proof.
  revert m. induction ks as [|k ks IH]; intros m; simpl; [reflexivity|].
  rewrite IH, Map_get_set. fold (includes w ks).
  destruct (w =? k) eqn:E; simpl.
  - apply Z.eqb_eq in E. subst k. destruct (includes w ks); reflexivity.
  - reflexivity.
Qed.

Lemma Map_fold_set_NoDup {V} (f : Z -> V) (ks : list Z)
  (m : list (Z * V)) :
  NoDup (Map_keys m) ->
  NoDup (Map_keys (fold_left (fun acc k => Map_set k (f k) acc) ks m)).
Proof.
  revert m. induction ks as [|k ks IH]; intros m N; simpl; [exact N|].
  apply IH, Map_set_NoDup, N.
Qed.

(** X6: [generateDayStrategy] leaves the instance as it is; a wolf has an
    individual strategy exactly when it is listed alive, once however often
    it is listed, and it is the one [generateIndividualStrategy] gives it,
    with the urgency of the context as its risk level; there are three
    coordination points, and a fourth exactly under high urgency. *)
Theorem day_strategy_covers_alive_wolves :
  forall context teamDecision st,
    let result := generateDayStrategy context teamDecision st in
    snd result = st
    /\ (forall w,
          Map_get w (individualStrategies (fst result))
          = if includes w (aliveWerewolves context)
            then Some (generateIndividualStrategy w context)
            else None)
    /\ NoDup (Map_keys (individualStrategies (fst result)))
    /\ (forall w s,
          Map_get w (individualStrategies (fst result)) = Some s ->
          ind_riskLevel s = urgencyLevel context)
    /\ List.length (coordinationPoints (fst result))
       = (if is_high (urgencyLevel context) then 4%nat else 3%nat).
Proof.
  intros context teamDecision st. unfold generateDayStrategy.
  cbn [fst snd individualStrategies coordinationPoints].
  assert (G : forall w,
             Map_get w
               (fold_left
                  (fun strategies werewolfId =>
                     Map_set werewolfId
                       (generateIndividualStrategy werewolfId context)
                       strategies)
                  (aliveWerewolves context) [])
             = if includes w (aliveWerewolves context)
               then Some (generateIndividualStrategy w context)
               else None).
  { intros w.
    exact (Map_get_fold_set
             (fun k => generateIndividualStrategy k context)
             (aliveWerewolves context) [] w). }
  split; [reflexivity|]. split; [exact G|]. split.
  - exact (Map_fold_set_NoDup
             (fun k => generateIndividualStrategy k context)
             (aliveWerewolves context) [] (NoDup_nil _)).
  - split.
    + intros w s E. rewrite G in E.
      destruct (includes w (aliveWerewolves context)); [|discriminate].
      injection E as <-. reflexivity.
    + destruct (is_high (urgencyLevel context)); reflexivity.
Qed.

(** X7: within one context the individual strategy of a wolf depends on
    nothing but whether it is the first of the alive wolves: two wolves get
    the same strategy exactly when both or neither of them is. *)
Theorem individual_strategy_tells_the_leader :
  forall context w1 w2,
    generateIndividualStrategy w1 context
    = generateIndividualStrategy w2 context
    <-> leads context w1 = leads context w2.
Proof.
  intros context w1 w2. unfold generateIndividualStrategy, leads.
  cbv zeta.
  destruct (hd_error (aliveWerewolves context)) as [leader|].
  - destruct (w1 =? leader), (w2 =? leader);
      (split; [intros E|intros E; try reflexivity; discriminate]);
      try reflexivity;
      destruct (is_high (urgencyLevel context));
      apply (f_equal speechStrategy) in E; cbn [speechStrategy] in E;
      discriminate.
  - split; reflexivity.
Qed.

End DayPlan.

(** ** The tally of the suggestions and the choice of the target *)

Section Tally.
Import WerewolfCommunicationSystem.
#[local] Open Scope float_scope.

Lemma record_suggestion_get analysis s t :
  Map_get t (record_suggestion analysis s)
  = if (suggestedTarget s =? t)%Z
    then Some (tally (match Map_get t analysis with
                      | Some d => d
                      | None => fresh_entry
                      end) s)
    else Map_get t analysis.
Proof.
  unfold record_suggestion, Map_has, tally, fresh_entry. cbv zeta.
  destruct (Map_get (suggestedTarget s) analysis) as [d|] eqn:G;
    cbn [negb].
  - rewrite G, Map_get_set, (Z.eqb_sym t).
    destruct (suggestedTarget s =? t)%Z eqn:E; [|reflexivity].
    apply Z.eqb_eq in E. subst t. rewrite G. reflexivity.
  - rewrite Map_get_set, Z.eqb_refl, !Map_get_set, (Z.eqb_sym t).
    destruct (suggestedTarget s =? t)%Z eqn:E; [|reflexivity].
    apply Z.eqb_eq in E. subst t. rewrite G. reflexivity.
Qed.

Lemma fold_record_get suggestions analysis t :
  Map_get t (fold_left record_suggestion suggestions analysis)
  = match naming t suggestions with
    | [] => Map_get t analysis
    | named =>
        Some (fold_left tally named
                (match Map_get t analysis with
                 | Some d => d
                 | None => fresh_entry
                 end))
    end.
Proof.
  revert analysis.
  induction suggestions as [|s l IH]; intros analysis;
    cbn [fold_left naming filter]; [reflexivity|].
  rewrite IH, record_suggestion_get. fold (naming t l).
  destruct (suggestedTarget s =? t)%Z; cbn [fold_left].
  - destruct (naming t l); reflexivity.
  - reflexivity.
Qed.

Lemma fold_tally named d :
  votes (fold_left tally named d)
  = (votes d + Z.of_nat (List.length named))%Z
  /\ reasons (fold_left tally named d)
     = (reasons d ++ map sug_reason named)%list
  /\ totalPriority (fold_left tally named d)
     = fold_left (fun acc s => acc + sug_priority s) named (totalPriority d)
  /\ riskLevel (fold_left tally named d) = riskLevel d.
Proof.
  revert d. induction named as [|s l IH]; intros d; cbn [fold_left].
  - cbn [List.length map]. rewrite app_nil_r, Z.add_0_r. auto.
  - destruct (IH (tally d s)) as (V & R & P & K).
    rewrite V, R, P, K. unfold tally, push.
    cbn [votes reasons totalPriority riskLevel List.length map].
    rewrite <- app_assoc. repeat split; try reflexivity. lia.
Qed.

Lemma record_suggestion_NoDup analysis s :
  NoDup (Map_keys analysis) -> NoDup (Map_keys (record_suggestion analysis s)).
Proof.
  intros N. unfold record_suggestion. cbv zeta.
  assert (N1 : NoDup
                 (Map_keys
                    (if negb (Map_has (suggestedTarget s) analysis)
                     then Map_set (suggestedTarget s)
                            (mkTargetData 0 0 [] 0) analysis
                     else analysis))).
  { destruct (negb _); [apply Map_set_NoDup|]; exact N. }
  destruct (Map_get (suggestedTarget s) _); [apply Map_set_NoDup|];
    exact N1.
Qed.

Lemma fold_record_NoDup suggestions analysis :
  NoDup (Map_keys analysis) ->
  NoDup (Map_keys (fold_left record_suggestion suggestions analysis)).
Proof.
  revert analysis. induction suggestions as [|s l IH]; intros analysis N;
    cbn [fold_left]; [exact N|].
  apply IH, record_suggestion_NoDup, N.
Qed.

Lemma Map_keys_map {V W} (f : V -> W) (m : list (Z * V)) :
  Map_keys (map (fun kv => (fst kv, f (snd kv))) m) = Map_keys m.
Proof.
  unfold Map_keys. rewrite map_map. reflexivity.
Qed.

(** X8: the analysis of the suggestions has one entry for each target that
    some suggestion names and none for any other; the entry counts the
    suggestions naming the target, lists their reasons in the order of the
    suggestions, adds up their priorities from the left starting at [0],
    and rates the risk by the reasons alone: [0.3] when one mentions a god
    role, else [0.8] when one mentions suspicion or threat, else [0.5]. *)
Theorem target_analysis_collects_suggestions :
  forall suggestions t,
    NoDup (Map_keys (analyzeTargetSuggestions suggestions))
    /\ (Map_get t (analyzeTargetSuggestions suggestions) = None
        <-> naming t suggestions = [])
    /\ forall d,
         Map_get t (analyzeTargetSuggestions suggestions) = Some d ->
         votes d = Z.of_nat (List.length (naming t suggestions))
         /\ reasons d = map sug_reason (naming t suggestions)
         /\ totalPriority d
            = fold_left (fun acc s => acc + sug_priority s)
                (naming t suggestions) 0
         /\ riskLevel d
            = (if some mentions_god_role (reasons d) then 0.3
               else if some mentions_suspicion (reasons d) then 0.8
               else 0.5).
Proof.
  intros suggestions t. unfold analyzeTargetSuggestions.
  rewrite Map_keys_map, Map_get_map, fold_record_get.
  cbn [Map_get].
  split; [apply fold_record_NoDup; constructor|].
  destruct (naming t suggestions) as [|s named] eqn:E.
  - cbn [option_map]. split; [tauto|]. intros d X. discriminate.
  - cbn [option_map]. split; [split; discriminate|].
    intros d X. injection X as <-.
    destruct (fold_tally (s :: named) fresh_entry) as (V & R & P & _).
    unfold assess_risk.
    cbn [votes reasons totalPriority riskLevel].
    cbn [fold_left] in V, R, P.
    rewrite V, R, P. cbn [fresh_entry votes reasons totalPriority app].
    auto.
Qed.

Lemma fold_pick_best_score analysis acc :
  fold_left pick_best analysis acc = acc
  \/ exists e, In e analysis
       /\ fold_left pick_best analysis acc = (Some (fst e), score (snd e)).
Proof.
  revert acc. induction analysis as [|e l IH]; intros acc; cbn [fold_left].
  - left. reflexivity.
  - destruct (IH (pick_best acc e)) as [E|(e' & I & E)].
    + rewrite E. unfold pick_best.
      destruct (snd acc <? score (snd e)).
      * right. exists e. split; [left; reflexivity|reflexivity].
      * left. reflexivity.
    + right. exists e'. split; [right; exact I|exact E].
Qed.

Lemma fold_pick_best_keeps analysis t x :
  Forall (fun e => (x <? score (snd e)) = false) analysis ->
  fold_left pick_best analysis (Some t, x) = (Some t, x).
Proof.
  induction 1 as [|e l L _ IH]; cbn [fold_left]; [reflexivity|].
  unfold pick_best at 2. cbn [snd]. rewrite L. exact IH.
Qed.

(** X9: the scoring loop of [makeTeamDecision] picks the first entry whose
    score is strictly the highest so far and is never overtaken: an entry
    wins when its score is above [-1] and above every earlier score, and no
    later score is above it.  A later entry with the same score does not
    replace it. *)
Theorem best_target_is_first_highest :
  forall before t d after,
    (-1 <? score d) = true ->
    Forall (fun e => (score (snd e) <? score d) = true) before ->
    Forall (fun e => (score d <? score (snd e)) = false) after ->
    best_target (before ++ (t, d) :: after) = Some t.
Proof.
  intros before t d after Low Before After. unfold best_target.
  rewrite fold_left_app. cbn [fold_left].
  assert (P : pick_best (fold_left pick_best before (None, -1)) (t, d)
              = (Some t, score d)).
  { unfold pick_best at 1. cbn [fst snd].
    destruct (fold_pick_best_score before (None, -1)) as [E|(e & I & E)];
      rewrite E; cbn [snd].
    - rewrite Low. reflexivity.
    - rewrite Forall_forall in Before. rewrite (Before e I). reflexivity. }
  rewrite P, fold_pick_best_keeps; [reflexivity|exact After].
Qed.

End Tally.

Lemma best_target_is_first_highest_example :
  Comm.best_target
    ([(2, Comm.mkTargetData 1 0.5 ["稳"] 0.5)]
     ++ (3, Comm.mkTargetData 2 1 ["他像预言家"; "同意"] 0.3)
     :: [(5, Comm.mkTargetData 2 1 ["预言家"; "跟"] 0.3)])%list
  = Some 3.
Proof.
  apply best_target_is_first_highest.
  - reflexivity.
  - repeat constructor.
  - repeat constructor.
Defined.

(** ** The record of the team's decisions *)

Section Decisions.
Import WerewolfCommunicationSystem.
Context `{Externals}.

(** X10: the decisions of the team only accumulate.  A call adds at most
    one, at the end: a negotiation that returns a decision adds that
    decision, whose participants are the alive wolves of the context and
    whose decision maker is the first of them; a negotiation that raises
    and every other call, [cleanup] included, leave the decisions as they
    are. *)
Theorem team_decisions_only_grow :
  forall c st,
    teamDecisions (step c st) = teamDecisions st
    /\ (forall context suggestions d,
          c = call_negotiateKillTarget context suggestions ->
          fst (negotiateKillTarget context suggestions st) <> Normal d)
    \/ exists context suggestions d,
         c = call_negotiateKillTarget context suggestions
         /\ fst (negotiateKillTarget context suggestions st) = Normal d
         /\ teamDecisions (step c st) = (teamDecisions st ++ [d])%list
         /\ fst (getTeamDecisions (step c st))
            = (fst (getTeamDecisions st) ++ [d])%list
         /\ messages (step c st) = messages st
         /\ communicationHistory (step c st) = communicationHistory st
         /\ participatingMembers d = aliveWerewolves context
         /\ finalDecisionMaker d = hd_error (aliveWerewolves context).
Proof.
  intros c st. destruct c as [s ctx sp vt|ctx sg|ctx td|r| |cur].
  - left. split; [reflexivity|]. intros ? ? ? X. discriminate.
  - cbn [step]. unfold negotiateKillTarget. cbv zeta.
    destruct (makeTeamDecision (analyzeTargetSuggestions sg) ctx)
      as [d|e] eqn:M.
    + right. exists ctx, sg, d.
      unfold negotiateKillTarget. cbv zeta. rewrite M.
      cbn [fst snd teamDecisions messages communicationHistory
             getTeamDecisions].
      unfold push. repeat split.
      * unfold makeTeamDecision in M. cbv zeta in M.
        destruct (or_id _ _) in M; [|discriminate].
        injection M as <-. reflexivity.
      * unfold makeTeamDecision in M. cbv zeta in M.
        destruct (or_id _ _) in M; [|discriminate].
        injection M as <-. reflexivity.
    + left. split; [reflexivity|].
      intros context suggestions d X. injection X as -> ->.
      rewrite M. cbn [fst]. discriminate.
  - left. split; [reflexivity|]. intros ? ? ? X. discriminate.
  - left. split; [reflexivity|]. intros ? ? ? X. discriminate.
  - left. split; [reflexivity|]. intros ? ? ? X. discriminate.
  - left. split; [reflexivity|]. intros ? ? ? X. discriminate.
Qed.

End Decisions.

(** ** The profiles and what is derived from them *)

Section Profiles.
Import AIMemorySystem.
Context `{Externals}.

Lemma addMemory_context params st :
  gameContext (addMemory params st) = gameContext st.
Proof. reflexivity. Qed.

Lemma updatePlayerProfile_tidy playerId analysis alivePlayers st :
  tidy st -> tidy (updatePlayerProfile playerId analysis alivePlayers st).
Proof.
  intros (N & F & C). unfold tidy, updatePlayerProfile.
  cbn [playerProfiles].
  split; [apply Map_set_NoDup, N|].
  destruct (Map_get playerId (playerProfiles st)) as [profile|] eqn:G.
  - apply Map_get_In in G.
    rewrite Forall_forall in F, C.
    pose proof (F _ G) as (F1 & F2 & F3 & F4 & F5).
    pose proof (C _ G) as C1.
    unfold profile_clean in C1. cbn [fst snd] in *.
    split; apply Map_set_Forall; try (apply Forall_forall; assumption).
    + unfold profile_fresh. cbn. auto.
    + unfold profile_clean. cbn. exact C1.
  - split; apply Map_set_Forall; try assumption.
    + unfold profile_fresh. cbn. auto.
    + unfold profile_clean. cbn. reflexivity.
Qed.

Lemma fold_addMemory_profiles {X} (params : X -> MemoryParams)
  (l : list X) st :
  playerProfiles (fold_left (fun s x => addMemory (params x) s) l st)
  = playerProfiles st
  /\ gameContext (fold_left (fun s x => addMemory (params x) s) l st)
     = gameContext st.
Proof.
  revert st. induction l as [|x l IH]; intros st; cbn [fold_left];
    [auto|].
  destruct (IH (addMemory (params x) st)) as (P & G). rewrite P, G. auto.
Qed.

Lemma deduce_player_profiles allSpeeches allVotes acc player :
  playerProfiles (snd (deduce_player allSpeeches allVotes acc player))
  = playerProfiles (snd acc)
  /\ gameContext (snd (deduce_player allSpeeches allVotes acc player))
     = gameContext (snd acc).
Proof.
  destruct acc as [ds st]. unfold deduce_player.
  destruct (id player =? myPlayerId (gameContext st)); [auto|].
  cbv zeta. destruct (_ <? _)%float; auto.
Qed.

Lemma deduceRoles_fold_profiles allSpeeches allVotes alivePlayers acc :
  playerProfiles
    (snd (fold_left (deduce_player allSpeeches allVotes) alivePlayers acc))
  = playerProfiles (snd acc)
  /\ gameContext
       (snd (fold_left (deduce_player allSpeeches allVotes) alivePlayers
               acc))
     = gameContext (snd acc).
Proof.
  revert acc. induction alivePlayers as [|p l IH]; intros acc;
    cbn [fold_left]; [auto|].
  destruct (IH (deduce_player allSpeeches allVotes acc p)) as (P & G).
  destruct (deduce_player_profiles allSpeeches allVotes acc p) as (P1 & G1).
  rewrite P, G, P1, G1. auto.
Qed.

Lemma step_profiles c st :
  playerProfiles (step c st) = playerProfiles st
  \/ exists speech allSpeeches alivePlayers,
       c = call_analyzeSpeech speech allSpeeches alivePlayers.
Proof.
  destruct c; cbn [step]; try (left; reflexivity).
  - right. eauto.
  - left. unfold analyzeVotingPattern.
    apply (fold_addMemory_profiles
             (fun pattern =>
                mkParams vote_pattern (Some (pattern_playerId pattern))
                  (description pattern) (pattern_confidence pattern)
                  0.8%float observation)).
  - left. unfold deduceRoles.
    apply (deduceRoles_fold_profiles allSpeeches allVotes alivePlayers
             ([], st)).
Qed.

Lemma analyzeSpeech_profiles speech allSpeeches alivePlayers st :
  playerProfiles (analyzeSpeech speech allSpeeches alivePlayers st)
  = playerProfiles
      (updatePlayerProfile (speech_playerId speech)
         (extractSpeechInsights speech allSpeeches) alivePlayers st).
Proof.
  unfold analyzeSpeech. cbv zeta.
  destruct (0 <? _); reflexivity.
Qed.

Lemma tidy_profiles st st' :
  playerProfiles st' = playerProfiles st -> tidy st -> tidy st'.
Proof. unfold tidy. intros ->. auto. Qed.

Lemma step_tidy c st : tidy st -> tidy (step c st).
Proof.
  intros T. destruct (step_profiles c st) as [E|(sp & al & ap & ->)].
  - exact (tidy_profiles _ _ E T).
  - cbn [step].
    apply (tidy_profiles _ _ (analyzeSpeech_profiles sp al ap st)).
    apply updatePlayerProfile_tidy, T.
Qed.

Lemma reachable_tidy st : reachable st -> tidy st.
Proof.
  induction 1 as [r p t|c st R IH].
  - repeat split; constructor.
  - apply step_tidy, IH.
Qed.

Lemma tidy_not_suspected st r p :
  tidy st -> suspected r (playerProfiles st) p = false.
Proof.
  intros (_ & F & _). unfold suspected, suspected_as.
  destruct (Map_get p (playerProfiles st)) as [profile|] eqn:G;
    [|reflexivity].
  apply Map_get_In in G. rewrite Forall_forall in F.
  destruct (F _ G) as (_ & S & _). cbn [snd] in S. rewrite S. reflexivity.
Qed.

Lemma filter_none {X} (f : X -> bool) (l : list X) :
  (forall x, f x = false) -> filter f l = [].
Proof.
  intros N. induction l as [|x l IH]; cbn [filter]; [reflexivity|].
  rewrite N. exact IH.
Qed.

(** X11: in every state of an instance [getThreatAssessment] returns the
    empty list: no profile ever has a suspected role or a contradiction, so
    the level of a player is at most the [0.2] of a suspicious voting
    pattern, which is not above the threshold of [0.3]. *)
Theorem threat_assessment_is_always_empty :
  forall st, reachable st -> fst (getThreatAssessment st) = [].
Proof.
  intros st R. destruct (reachable_tidy st R) as (_ & F & C).
  unfold getThreatAssessment. cbn [fst].
  assert (E : fold_left (assess_profile st) (playerProfiles st) [] = []).
  { induction (playerProfiles st) as [|[k profile] l IH];
      cbn [fold_left]; [reflexivity|].
    inversion F as [|? ? (_ & S & _) F']. inversion C as [|? ? K C'].
    subst. cbn [snd] in S. unfold profile_clean in K. cbn [snd] in K.
    replace (assess_profile st [] (k, profile)) with (@nil Threat);
      [exact (IH F' C')|].
    unfold assess_profile, suspected_as, speech_inconsistent.
    rewrite S, K. cbn [List.length Z.of_nat Z.ltb Z.compare andb].
    destruct (k =? myPlayerId (gameContext st)); [reflexivity|].
    cbv zeta. cbn [fst snd].
    destruct (some _ _); reflexivity. }
  rewrite E. reflexivity.
Qed.

(** X12: in every state of an instance [generateStrategy] names no target
    players, whatever the role, the phase and the stored observations: its
    result is one of four fixed strategies chosen by the role alone. *)
Theorem strategy_names_no_targets :
  forall st context,
    reachable st ->
    targetPlayers (fst (generateStrategy context st)) = []
    /\ forall st' context',
         reachable st' ->
         myRole (gameContext st') = myRole (gameContext st) ->
         fst (generateStrategy context' st')
         = fst (generateStrategy context st).
Proof.
  assert (T : forall st context,
             reachable st ->
             fst (generateStrategy context st)
             = match myRole (gameContext st) with
               | WEREWOLF =>
                   mkStrategy "伪装村民，寻找神职目标"
                     "作为狼人需要隐藏身份并消除威胁" [] medium
               | SEER =>
                   mkStrategy "适时公布查验结果，引导投票"
                     "作为预言家需要在保护自己的同时传达信息" [] high
               | WITCH =>
                   mkStrategy "隐藏身份，关键时刻使用药水"
                     "作为女巫需要在合适时机使用能力" [] low
               | VILLAGER =>
                   mkStrategy "分析发言，寻找逻辑漏洞"
                     "作为村民需要通过逻辑分析找出狼人" [] low
               end).
  { intros st context R. pose proof (reachable_tidy st R) as Ty.
    unfold generateStrategy. cbn [fst]. unfold getPlayerAnalysis.
    destruct (myRole (gameContext st)).
    - unfold generateWerewolfStrategy. rewrite filter_none; [reflexivity|].
      intros p. rewrite !tidy_not_suspected by exact Ty. reflexivity.
    - unfold generateSeerStrategy. rewrite filter_none; [reflexivity|].
      intros p. apply tidy_not_suspected, Ty.
    - reflexivity.
    - unfold generateVillagerStrategy. rewrite filter_none; [reflexivity|].
      intros p. destruct Ty as (_ & _ & C).
      destruct (Map_get p (playerProfiles st)) as [profile|] eqn:G;
        [|reflexivity].
      apply Map_get_In in G. rewrite Forall_forall in C.
      pose proof (C _ G) as K. unfold profile_clean in K. cbn [snd] in K.
      rewrite K. reflexivity. }
  intros st context R. split.
  - rewrite (T st context R). destruct (myRole (gameContext st));
      reflexivity.
  - intros st' context' R' E. rewrite (T st context R), (T st' context' R').
    rewrite E. reflexivity.
Qed.

(** X13: in every state of an instance there is one profile per player,
    filed under the player's own id, and it is as it was created but for
    its behaviours and the round of its last update: no suspected role,
    confidence [0], no alliances, threats or contradictions. *)
Theorem profiles_only_gather_behaviours :
  forall st,
    reachable st ->
    NoDup (Map_keys (playerProfiles st))
    /\ forall playerId profile,
         Map_get playerId (playerProfiles st) = Some profile ->
         profile_playerId profile = playerId
         /\ suspectedRole profile = None
         /\ profile_confidence profile = 0%float
         /\ contradictions profile = []
         /\ alliances profile = []
         /\ threats profile = [].
Proof.
  intros st R. destruct (reachable_tidy st R) as (N & F & C).
  split; [exact N|]. intros playerId profile G. apply Map_get_In in G.
  rewrite Forall_forall in F, C.
  destruct (F _ G) as (F1 & F2 & F3 & F4 & F5). pose proof (C _ G) as K.
  unfold profile_clean in K. cbn [fst snd] in *.
  repeat split; assumption.
Qed.

(** X14: [analyzeSpeech] files the speech under its speaker and nobody
    else: afterwards the speaker has a profile, updated in the current
    round, whose behaviours are the earlier ones followed, when the speech
    has keywords, by one line for this round; every other player's profile
    is what it was. *)
Theorem speech_updates_the_speakers_profile :
  forall speech allSpeeches alivePlayers st,
    let st' := analyzeSpeech speech allSpeeches alivePlayers st in
    let found := keywords (extractSpeechInsights speech allSpeeches) in
    let before :=
      match Map_get (speech_playerId speech) (playerProfiles st) with
      | Some profile => behaviors profile
      | None => []
      end in
    (exists profile,
       Map_get (speech_playerId speech) (playerProfiles st') = Some profile
       /\ lastUpdated profile = currentRound (gameContext st)
       /\ behaviors profile
          = match found with
            | [] => before
            | _ =>
                push before
                  ("第" ++ Z_toString (currentRound (gameContext st))
                   ++ "轮: " ++ join ", " found)
            end)
    /\ (forall other,
          other <> speech_playerId speech ->
          Map_get other (playerProfiles st')
          = Map_get other (playerProfiles st))
    /\ gameContext st' = gameContext st.
Proof.
  intros speech allSpeeches alivePlayers st st' found before.
  unfold st'. rewrite analyzeSpeech_profiles.
  unfold updatePlayerProfile. cbn [playerProfiles gameContext addMemory].
  fold found. split; [|split].
  - eexists. rewrite Map_get_set, Z.eqb_refl. split; [reflexivity|].
    cbn [lastUpdated behaviors]. split; [reflexivity|].
    unfold before.
    destruct (Map_get (speech_playerId speech) (playerProfiles st));
      destruct found as [|k ks]; reflexivity.
  - intros other N. rewrite Map_get_set.
    destruct (other =? speech_playerId speech) eqn:E; [|reflexivity].
    apply Z.eqb_eq in E. contradiction.
  - unfold analyzeSpeech. cbv zeta. destruct (0 <? _); reflexivity.
Qed.

End Profiles.

(** ** The further statements at concrete inputs *)

Lemma history_of_round_is_log_of_round_example :
  let st :=
    Comm.step
      (Comm.call_generateWerewolfCommunication 1
         (Comm.mkContext 2 [mkPlayerInfo 1 true; mkPlayerInfo 5 true]
            [1; 4] [1; 4] [5] "" medium)
         [(1, [mkSpeech 5 "我有药水"])] [])
      Comm.new in
  Comm.getCommunicationHistory (Some 2) st
  = filter (of_round 2) (Comm.messages st).
Proof.
  cbv zeta.
  refine (proj1
            (@history_of_round_is_log_of_round example_host _
               (Comm.reachable_step _ _ Comm.reachable_new))
            2 _).
  discriminate.
Defined.

Lemma threat_assessment_is_always_empty_example :
  fst (Mem.getThreatAssessment
         (Mem.step
            (Mem.call_analyzeSpeech (mkSpeech 3 "我怀疑2号是狼人")
               [(1, [mkSpeech 3 "我怀疑2号是狼人"])]
               [mkPlayerInfo 1 true; mkPlayerInfo 3 true])
            (Mem.new VILLAGER 1 None)))
  = [].
Proof.
  exact (@threat_assessment_is_always_empty example_host _
           (Mem.reachable_step _ _ (Mem.reachable_new VILLAGER 1 None))).
Defined.

Lemma strategy_names_no_targets_example :
  Mem.targetPlayers
    (fst (Mem.generateStrategy (Mem.mkStrategyContext DAY [] [] [])
            (Mem.step
               (Mem.call_analyzeSpeech (mkSpeech 3 "我是预言家")
                  [(1, [mkSpeech 3 "我是预言家"])] [mkPlayerInfo 3 true])
               (Mem.new WEREWOLF 1 (Some [4])))))
  = [].
Proof.
  exact (proj1
           (@strategy_names_no_targets example_host _
              (Mem.mkStrategyContext DAY [] [] [])
              (Mem.reachable_step _ _
                 (Mem.reachable_new WEREWOLF 1 (Some [4]))))).
Defined.

Lemma profiles_only_gather_behaviours_example :
  NoDup
    (Map_keys
       (Mem.playerProfiles
          (Mem.step
             (Mem.call_analyzeSpeech (mkSpeech 3 "我是预言家")
                [(1, [mkSpeech 3 "我是预言家"])] [mkPlayerInfo 3 true])
             (Mem.new WEREWOLF 1 (Some [4]))))).
Proof.
  exact (proj1
           (@profiles_only_gather_behaviours example_host _
              (Mem.reachable_step _ _
                 (Mem.reachable_new WEREWOLF 1 (Some [4]))))).
Defined.

(** ** The deduction of roles *)

Section Deductions.
Import AIMemorySystem.
Context `{Externals}.
#[local] Open Scope float_scope.

Lemma analyzePlayerRole_profiles playerId allSpeeches allVotes s st :
  playerProfiles s = playerProfiles st ->
  analyzePlayerRole playerId allSpeeches allVotes s
  = analyzePlayerRole playerId allSpeeches allVotes st.
Proof.
  intros E. unfold analyzePlayerRole, has_contradictions. rewrite E.
  reflexivity.
Qed.

Lemma deduce_fold_origin allSpeeches allVotes st alivePlayers acc p d :
  playerProfiles (snd acc) = playerProfiles st ->
  gameContext (snd acc) = gameContext st ->
  Map_get p
    (fst (fold_left (deduce_player allSpeeches allVotes) alivePlayers acc))
  = Some d ->
  Map_get p (fst acc) = Some d
  \/ (In p (map id alivePlayers)
      /\ p <> myPlayerId (gameContext st)
      /\ d = analyzePlayerRole p allSpeeches allVotes st
      /\ (0.3 <? ded_confidence d) = true).
Proof.
  revert acc. induction alivePlayers as [|player l IH]; intros acc P G;
    cbn [fold_left map]; [auto|].
  destruct (deduce_player_profiles allSpeeches allVotes acc player)
    as (P1 & G1).
  intros E. apply IH in E; [|congruence|congruence].
  destruct E as [E|(I & R)]; [|right; split; [right; exact I|exact R]].
  destruct acc as [ds s]. cbn [fst snd] in *. unfold deduce_player in E.
  rewrite G in E.
  destruct (id player =? myPlayerId (gameContext st))%Z eqn:Me;
    [left; exact E|].
  cbv zeta in E.
  rewrite (analyzePlayerRole_profiles _ _ _ _ _ P) in E.
  destruct (0.3 <? ded_confidence
                     (analyzePlayerRole (id player) allSpeeches allVotes st))
    eqn:C; [|left; exact E].
  cbn [fst] in E. rewrite Map_get_set in E.
  destruct (p =? id player)%Z eqn:K; [|left; exact E].
  apply Z.eqb_eq in K. subst p. injection E as <-.
  right. split; [left; reflexivity|]. split; [|split; [reflexivity|exact C]].
  intros X. rewrite X, Z.eqb_refl in Me. discriminate.
Qed.

(** X15: every deduction that [deduceRoles] returns concerns a listed
    player other than the instance's own, is the guess of
    [analyzePlayerRole] for that player in the state before the call, and
    has a confidence above [0.3] and at most [0.8]. *)
Theorem deductions_are_confident_guesses_about_others :
  forall alivePlayers allSpeeches allVotes st p d,
    Map_get p (fst (deduceRoles alivePlayers allSpeeches allVotes st))
    = Some d ->
    In p (map id alivePlayers)
    /\ p <> myPlayerId (gameContext st)
    /\ d = analyzePlayerRole p allSpeeches allVotes st
    /\ (0.3 <? ded_confidence d) = true
    /\ (ded_confidence d <=? 0.8) = true.
Proof.
  intros alivePlayers allSpeeches allVotes st p d E.
  unfold deduceRoles in E.
  apply (deduce_fold_origin allSpeeches allVotes st) in E;
    [|reflexivity|reflexivity].
  destruct E as [E|(I & N & D & C)]; [discriminate|].
  repeat split; try assumption.
  destruct (ltb_not_nan _ _ C) as [_ Nan].
  rewrite D in Nan |- *. unfold analyzePlayerRole in Nan |- *.
  cbv zeta in Nan |- *. cbn [ded_confidence] in Nan |- *.
  apply Math_min_le_r, Nan.
Qed.

Lemma tidy_no_contradictions st p :
  tidy st -> has_contradictions p st = false.
Proof.
  intros (_ & _ & C). unfold has_contradictions.
  destruct (Map_get p (playerProfiles st)) as [profile|] eqn:G;
    [|reflexivity].
  apply Map_get_In in G. rewrite Forall_forall in C.
  pose proof (C _ G) as K. unfold profile_clean in K. cbn [snd] in K.
  rewrite K. reflexivity.
Qed.

(** X16: in every state of an instance [deduceRoles] says nothing about a
    player with at most one speech on record: one speech raises no role
    score above [0.2], which is not above the threshold of [0.3]. *)
Theorem one_speech_is_never_enough :
  forall st alivePlayers allSpeeches allVotes p,
    reachable st ->
    (List.length (speeches_of p allSpeeches) <= 1)%nat ->
    Map_get p (fst (deduceRoles alivePlayers allSpeeches allVotes st))
    = None.
Proof.
  intros st alivePlayers allSpeeches allVotes p R L.
  destruct (Map_get p _) as [d|] eqn:E; [|reflexivity].
  unfold deduceRoles in E.
  apply (deduce_fold_origin allSpeeches allVotes st) in E;
    [|reflexivity|reflexivity].
  destruct E as [E|(_ & _ & D & C)]; [discriminate|].
  exfalso. rewrite D in C. unfold analyzePlayerRole in C.
  rewrite (tidy_no_contradictions st p (reachable_tidy st R)) in C.
  destruct (speeches_of p allSpeeches) as [|s [|s' l]];
    [| |cbn [List.length] in L; lia].
  - vm_compute in C. discriminate.
  - cbn [fold_left] in C. unfold score_speech in C.
    cbv zeta in C.
    destruct (String_includes _ "不确定" || _)%bool,
             (String_includes _ "预言家" || _)%bool,
             (String_includes _ "女巫" || _)%bool,
             (String_includes _ "我是村民" || _)%bool;
      vm_compute in C; discriminate.
Qed.

End Deductions.

Lemma one_speech_is_never_enough_example :
  Map_get 3
    (fst (Mem.deduceRoles [mkPlayerInfo 3 true; mkPlayerInfo 5 true]
            [(1, [mkSpeech 3 "我是预言家，昨晚查验了5号"; mkSpeech 5 "过"])]
            []
            (Mem.step (Mem.call_updateGameContext 2 DAY)
               (Mem.new VILLAGER 1 None))))
  = None.
Proof.
  apply (@one_speech_is_never_enough example_host).
  - exact (Mem.reachable_step _ _ (Mem.reachable_new VILLAGER 1 None)).
  - vm_compute. lia.
Defined.

Lemma deductions_are_confident_guesses_about_others_example :
  let st := Mem.new VILLAGER 1 None in
  let speeches :=
    [(1, [mkSpeech 3 "我是预言家"]); (2, [mkSpeech 3 "昨晚查验了5号"])] in
  exists d,
    Map_get 3 (fst (Mem.deduceRoles [mkPlayerInfo 3 true] speeches [] st))
    = Some d
    /\ d = Mem.analyzePlayerRole 3 speeches [] st
    /\ Mem.role d = SEER.
Proof.
  cbv zeta. eexists. split; [reflexivity|]. split; [|reflexivity].
  exact (proj1 (proj2 (proj2
           (@deductions_are_confident_guesses_about_others example_host
              [mkPlayerInfo 3 true]
              [(1, [mkSpeech 3 "我是预言家"]);
               (2, [mkSpeech 3 "昨晚查验了5号"])]
              [] (Mem.new VILLAGER 1 None) 3 _ eq_refl)))).
Defined.

(** ** What the summary reports *)

Section Summary.
Import AIMemorySystem.
Context `{Externals}.
#[local] Open Scope float_scope.

Lemma filter_nil_Forall {X} (f : X -> bool) (l : list X) :
  filter f l = [] <-> Forall (fun x => f x = false) l.
Proof.
  induction l as [|x l IH]; cbn [filter].
  - split; [constructor|reflexivity].
  - destruct (f x) eqn:E.
    + split; [discriminate|]. intros F. inversion F. congruence.
    + rewrite IH. split; [intros F; constructor; assumption|].
      intros F. inversion F. assumption.
Qed.

Lemma slice0_nil {X} (n : Z) (l : list X) :
  (0 < n)%Z -> (List.length (slice0 n l) = 0%nat <-> l = []).
Proof.
  intros P. unfold slice0.
  replace (n <? 0)%Z with false by (symmetry; apply Z.ltb_ge; lia).
  rewrite length_firstn. split.
  - intros E. destruct l; [reflexivity|]. cbn [List.length] in E. lia.
  - intros ->. cbn [List.length]. lia.
Qed.

(** X17: asked for a positive number of entries, or for the default of
    ten, [getMemorySummary] answers that there is nothing important to
    report exactly when no stored entry has a relevance above [0.6]
    together with a confidence above [0.5]. *)
Theorem summary_is_empty_iff_nothing_qualifies :
  forall maxEntries st,
    match maxEntries with Some n => (0 < n)%Z | None => True end ->
    fst (getMemorySummary maxEntries st) = "暂无重要记忆信息。"
    <-> Forall
          (fun m => worth_reporting (relevance m) (confidence m) = false)
          (memories st).
Proof.
  intros maxEntries st P. unfold getMemorySummary. cbn [fst]. cbv zeta.
  set (n := match maxEntries with Some n => n | None => 10%Z end).
  assert (Pn : (0 < n)%Z) by (unfold n; destruct maxEntries; [exact P|lia]).
  set (qualifying :=
         filter (fun m => (0.6 <? relevance m) && (0.5 <? confidence m))
           (memories st)).
  assert (Q : qualifying = []
              <-> Forall
                    (fun m =>
                       worth_reporting (relevance m) (confidence m) = false)
                    (memories st)).
  { unfold qualifying. apply filter_nil_Forall. }
  rewrite <- Q.
  pose proof (slice0_nil n (sort_desc importance qualifying) Pn) as S.
  destruct (Nat.eqb (List.length
                       (slice0 n (sort_desc importance qualifying))) 0)
    eqn:E.
  - apply Nat.eqb_eq in E. apply S in E.
    split; [intros _|reflexivity].
    apply length_zero_iff_nil. rewrite <- (sort_desc_length importance).
    rewrite E. reflexivity.
  - apply Nat.eqb_neq in E. split.
    + cbn [String.append]. intros X. discriminate.
    + intros N. exfalso. apply E, S. rewrite N. reflexivity.
Qed.

(** X18: the entry that [analyzeSpeech] stores for a speech qualifies for
    the summary exactly when the lower-cased speech touches one of the
    three core topics (werewolves or killing, the seer or a check, the
    witch or a potion), whether or not the speaker is a teammate; a speech
    about voting or the night alone never does. *)
Theorem speech_is_reported_iff_on_a_core_topic :
  forall speech allSpeeches st,
    let analysis := extractSpeechInsights speech allSpeeches in
    worth_reporting
      (calculateRelevance (speech_playerId speech) (keywords analysis) st)
      (insight_confidence analysis)
    = core_topic (toLowerCase (speech_content speech)).
Proof.
  intros speech allSpeeches st. cbv zeta.
  unfold worth_reporting, calculateRelevance, extractSpeechInsights,
    core_topic.
  cbv zeta. cbn [keywords insight_confidence].
  set (content := toLowerCase (speech_content speech)).
  destruct (includes (speech_playerId speech) (teammates (gameContext st)));
    destruct (String_includes content "狼人" || String_includes content "杀")
      %bool;
    destruct (String_includes content "预言家"
              || String_includes content "查验")%bool;
    destruct (String_includes content "女巫" || String_includes content "药")
      %bool;
    destruct (String_includes content "投票"
              || String_includes content "出局")%bool;
    destruct (String_includes content "昨晚"
              || String_includes content "夜里")%bool;
    vm_compute; reflexivity.
Qed.

End Summary.

Lemma summary_is_empty_iff_nothing_qualifies_example :
  fst (Mem.getMemorySummary (Some 3)
         (Mem.step
            (Mem.call_analyzeSpeech (mkSpeech 3 "今天投票给谁")
               [(1, [mkSpeech 3 "今天投票给谁"])] [mkPlayerInfo 3 true])
            (Mem.new VILLAGER 1 None)))
  = "暂无重要记忆信息。"
  <-> Forall
        (fun m =>
           worth_reporting (Mem.relevance m) (Mem.confidence m) = false)
        (Mem.memories
           (Mem.step
              (Mem.call_analyzeSpeech (mkSpeech 3 "今天投票给谁")
                 [(1, [mkSpeech 3 "今天投票给谁"])] [mkPlayerInfo 3 true])
              (Mem.new VILLAGER 1 None))).
Proof.
  apply (@summary_is_empty_iff_nothing_qualifies example_host (Some 3)).
  reflexivity.
Defined.

(** ** Voting patterns *)

Section Patterns.
Import AIMemorySystem.
#[local] Open Scope float_scope.

Lemma group_vote_get playerVotes vote p :
  Map_get p (group_vote playerVotes vote)
  = if (voterId vote =? p)%Z
    then Some (push (match Map_get p playerVotes with
                     | Some cast => cast
                     | None => []
                     end) vote)
    else Map_get p playerVotes.
Proof.
  unfold group_vote, Map_has. cbv zeta.
  destruct (Map_get (voterId vote) playerVotes) as [cast|] eqn:G;
    cbn [negb].
  - rewrite G, Map_get_set, (Z.eqb_sym p).
    destruct (voterId vote =? p)%Z eqn:E; [|reflexivity].
    apply Z.eqb_eq in E. subst p. rewrite G. reflexivity.
  - rewrite Map_get_set, Z.eqb_refl, !Map_get_set, (Z.eqb_sym p).
    destruct (voterId vote =? p)%Z eqn:E; [|reflexivity].
    apply Z.eqb_eq in E. subst p. rewrite G. reflexivity.
Qed.

Lemma fold_group_get votes playerVotes p :
  Map_get p (fold_left group_vote votes playerVotes)
  = match filter (fun v => voterId v =? p)%Z votes with
    | [] => Map_get p playerVotes
    | cast =>
        Some (match Map_get p playerVotes with
              | Some before => before
              | None => []
              end ++ cast)%list
    end.
Proof.
  revert playerVotes.
  induction votes as [|v l IH]; intros playerVotes;
    cbn [fold_left filter]; [reflexivity|].
  rewrite IH, group_vote_get.
  destruct (voterId v =? p)%Z.
  - unfold push.
    destruct (filter (fun v0 => voterId v0 =? p)%Z l); [reflexivity|].
    rewrite <- app_assoc. reflexivity.
  - reflexivity.
Qed.

Lemma group_vote_NoDup playerVotes vote :
  NoDup (Map_keys playerVotes) -> NoDup (Map_keys (group_vote playerVotes vote)).
Proof.
  intros N. unfold group_vote. cbv zeta.
  assert (N1 : NoDup
                 (Map_keys
                    (if negb (Map_has (voterId vote) playerVotes)
                     then Map_set (voterId vote) [] playerVotes
                     else playerVotes))).
  { destruct (negb _); [apply Map_set_NoDup|]; exact N. }
  destruct (Map_get (voterId vote) _); [apply Map_set_NoDup|]; exact N1.
Qed.

Lemma fold_group_NoDup votes playerVotes :
  NoDup (Map_keys playerVotes) ->
  NoDup (Map_keys (fold_left group_vote votes playerVotes)).
Proof.
  revert playerVotes. induction votes as [|v l IH]; intros playerVotes N;
    cbn [fold_left]; [exact N|].
  apply IH, group_vote_NoDup, N.
Qed.

Lemma Map_In_get {V} (k : Z) (v : V) (m : list (Z * V)) :
  NoDup (Map_keys m) -> In (k, v) m -> Map_get k m = Some v.
Proof.
  induction m as [|[k0 v0] m IH]; cbn [Map_keys map fst In Map_get];
    [contradiction|].
  intros N [E|I].
  - injection E as -> ->. rewrite Z.eqb_refl. reflexivity.
  - inversion N as [|? ? Out N']. subst.
    destruct (k =? k0)%Z eqn:E.
    + apply Z.eqb_eq in E. subst k0. exfalso. apply Out.
      apply (in_map fst) in I. exact I.
    + apply IH; assumption.
Qed.

Lemma nodup_length_le (l : list Z) :
  (List.length (nodup Z.eq_dec l) <= List.length l)%nat.
Proof.
  induction l as [|a l IH]; cbn [nodup List.length]; [lia|].
  destruct (in_dec Z.eq_dec a l); cbn [List.length]; lia.
Qed.

Lemma nodup_length_NoDup (l : list Z) :
  List.length (nodup Z.eq_dec l) = List.length l -> NoDup l.
Proof.
  induction l as [|a l IH]; cbn [nodup List.length]; [constructor|].
  destruct (in_dec Z.eq_dec a l) as [I|N]; cbn [List.length]; intros E.
  - pose proof (nodup_length_le l). lia.
  - constructor; [exact N|]. apply IH. lia.
Qed.

Lemma patterns_of_origin allVotes patterns entry pattern :
  In pattern (patterns_of allVotes patterns entry) ->
  In pattern patterns
  \/ (pattern_playerId pattern = fst entry
      /\ (2 <= List.length (snd entry))%nat
      /\ (description pattern = "经常跟票，可能是狼人或保守村民"
          /\ pattern_confidence pattern = 0.6
          /\ detectFollowerBehavior (snd entry) allVotes = true
          \/ description pattern = "投票分散，可能在搅局"
             /\ pattern_confidence pattern = 0.5
             /\ NoDup (map targetId (snd entry)))).
Proof.
  destruct entry as [playerId cast]. unfold patterns_of.
  destruct (Z.of_nat (List.length cast) <? 2)%Z eqn:L; [auto|].
  apply Z.ltb_ge in L. cbv zeta. cbn [fst snd].
  assert (L2 : (2 <= List.length cast)%nat) by lia.
  destruct (detectFollowerBehavior cast allVotes) eqn:D;
    destruct (Nat.eqb _ _) eqn:E; unfold push; intros I;
    repeat (apply in_app_or in I; destruct I as [I|I]);
    try (left; exact I);
    try (destruct I as [<-|[]]; right; cbn;
         split; [reflexivity|]; split; [exact L2|]);
    try (left; repeat split; reflexivity);
    try (right; repeat split; try reflexivity;
         apply Nat.eqb_eq in E; apply nodup_length_NoDup;
         rewrite length_map; exact E).
Qed.

Lemma fold_patterns_origin allVotes playerVotes patterns pattern :
  In pattern (fold_left (patterns_of allVotes) playerVotes patterns) ->
  In pattern patterns
  \/ exists entry,
       In entry playerVotes
       /\ pattern_playerId pattern = fst entry
       /\ (2 <= List.length (snd entry))%nat
       /\ (description pattern = "经常跟票，可能是狼人或保守村民"
           /\ pattern_confidence pattern = 0.6
           /\ detectFollowerBehavior (snd entry) allVotes = true
           \/ description pattern = "投票分散，可能在搅局"
              /\ pattern_confidence pattern = 0.5
              /\ NoDup (map targetId (snd entry))).
Proof.
  revert patterns. induction playerVotes as [|e l IH]; intros patterns;
    cbn [fold_left]; [auto|].
  intros I. apply IH in I. destruct I as [I|(entry & I & R)].
  - apply patterns_of_origin in I. destruct I as [I|R]; [auto|].
    right. exists e. split; [left; reflexivity|exact R].
  - right. exists entry. split; [right; exact I|exact R].
Qed.

(** X19: [extractVotingPatterns] looks at the votes of all rounds and not
    at its first argument.  Every pattern it returns is about a player who
    cast at least two votes in all, and is one of two: follower behaviour,
    with confidence [0.6], when [detectFollowerBehavior] holds of the
    player's votes, or scattered voting, with confidence [0.5], when no
    two of the player's votes have the same target. *)
Theorem patterns_need_two_votes :
  forall votes allVotes pattern,
    In pattern (extractVotingPatterns votes allVotes) ->
    let cast := cast_by (pattern_playerId pattern) allVotes in
    (2 <= List.length cast)%nat
    /\ (description pattern = "经常跟票，可能是狼人或保守村民"
        /\ pattern_confidence pattern = 0.6
        /\ detectFollowerBehavior cast allVotes = true
        \/ description pattern = "投票分散，可能在搅局"
           /\ pattern_confidence pattern = 0.5
           /\ NoDup (map targetId cast)).
Proof.
  intros votes allVotes pattern I. cbv zeta.
  unfold extractVotingPatterns in I. cbv zeta in I.
  rewrite fold_left_concat in I.
  apply fold_patterns_origin in I.
  destruct I as [[]|([k cast] & I & K & R)].
  cbn [fst snd] in K, R.
  apply Map_In_get in I; [|apply fold_group_NoDup; constructor].
  rewrite fold_group_get in I. cbn [Map_get app] in I.
  fold (all_votes allVotes) in I. rewrite <- K in I.
  fold (cast_by (pattern_playerId pattern) allVotes) in I.
  destruct (cast_by (pattern_playerId pattern) allVotes) as [|v l];
    [discriminate|].
  injection I as <-. exact R.
Qed.

End Patterns.

Lemma patterns_need_two_votes_example :
  let allVotes := [(1, [mkVote 2 3; mkVote 5 3]); (2, [mkVote 2 6])] in
  In (Mem.mkPattern 2 "投票分散，可能在搅局" 0.5%float)
    (Mem.extractVotingPatterns [] allVotes)
  /\ NoDup (map targetId (cast_by 2 allVotes)).
Proof.
  cbv zeta.
  assert (I : In (Mem.mkPattern 2 "投票分散，可能在搅局" 0.5%float)
                (Mem.extractVotingPatterns []
                   [(1, [mkVote 2 3; mkVote 5 3]); (2, [mkVote 2 6])])).
  { left. reflexivity. }
  split; [exact I|].
  destruct (patterns_need_two_votes _ _ _ I) as (_ & [(D & _)|(_ & _ & N)]).
  - discriminate D.
  - exact N.
Defined.

(** ** The round an entry belongs to *)

Section Rounds.
Import AIMemorySystem.
Context `{Externals}.

Lemma addMemory_stamped st params s :
  gameContext s = gameContext st ->
  Forall
    (fun m =>
       In m (memories st) \/ mem_round m = currentRound (gameContext st))
    (memories s) ->
  Forall
    (fun m =>
       In m (memories st) \/ mem_round m = currentRound (gameContext st))
    (memories (addMemory params s)).
Proof.
  intros G F. apply addMemory_Forall; [|exact F].
  right. cbn [new_entry mem_round]. rewrite G. reflexivity.
Qed.

Lemma fold_addMemory_stamped {X} (params : X -> MemoryParams) st
  (l : list X) s :
  gameContext s = gameContext st ->
  Forall
    (fun m =>
       In m (memories st) \/ mem_round m = currentRound (gameContext st))
    (memories s) ->
  Forall
    (fun m =>
       In m (memories st) \/ mem_round m = currentRound (gameContext st))
    (memories (fold_left (fun s x => addMemory (params x) s) l s)).
Proof.
  revert s. induction l as [|x l IH]; intros s G F; cbn [fold_left];
    [exact F|].
  apply IH; [exact G|]. apply addMemory_stamped; assumption.
Qed.

Lemma deduce_fold_stamped allSpeeches allVotes st alivePlayers acc :
  gameContext (snd acc) = gameContext st ->
  Forall
    (fun m =>
       In m (memories st) \/ mem_round m = currentRound (gameContext st))
    (memories (snd acc)) ->
  Forall
    (fun m =>
       In m (memories st) \/ mem_round m = currentRound (gameContext st))
    (memories
       (snd (fold_left (deduce_player allSpeeches allVotes) alivePlayers
               acc))).
Proof.
  revert acc. induction alivePlayers as [|p l IH]; intros acc G F;
    cbn [fold_left]; [exact F|].
  apply IH.
  - rewrite (proj2 (deduce_player_profiles allSpeeches allVotes acc p)).
    exact G.
  - destruct acc as [ds s]. cbn [snd] in *. unfold deduce_player.
    destruct (id p =? myPlayerId (gameContext s)); [exact F|].
    cbv zeta. destruct (_ <? _)%float; [|exact F].
    cbn [snd]. apply addMemory_stamped; assumption.
Qed.

Lemma old_entries_stamped st :
  Forall
    (fun m =>
       In m (memories st) \/ mem_round m = currentRound (gameContext st))
    (memories st).
Proof. apply Forall_forall. intros m I. left. exact I. Qed.

(** X20: an entry that a call adds to the store carries the round the
    instance was in when the call began: after any call, each stored entry
    was either stored before or has that round.  ([updateGameContext]
    changes the round and adds nothing.) *)
Theorem new_entries_carry_the_current_round :
  forall c st m,
    In m (memories (step c st)) ->
    In m (memories st) \/ mem_round m = currentRound (gameContext st).
Proof.
  intros c st m.
  assert (F : Forall
                (fun m =>
                   In m (memories st)
                   \/ mem_round m = currentRound (gameContext st))
                (memories (step c st))).
  { destruct c; cbn [step].
    - exact (old_entries_stamped st).
    - unfold analyzeSpeech. cbv zeta.
      match goal with
      | |- context [updatePlayerProfile ?p ?a ?l (addMemory ?q st)] =>
          assert (F1 : Forall
                         (fun m =>
                            In m (memories st)
                            \/ mem_round m = currentRound (gameContext st))
                         (memories
                            (updatePlayerProfile p a l (addMemory q st))))
            by (apply (addMemory_stamped st q st);
                [reflexivity|apply old_entries_stamped])
      end.
      destruct (0 <? _); [|exact F1].
      apply addMemory_stamped; [reflexivity|exact F1].
    - unfold analyzeVotingPattern.
      apply (fold_addMemory_stamped
               (fun pattern =>
                  mkParams vote_pattern (Some (pattern_playerId pattern))
                    (description pattern) (pattern_confidence pattern)
                    0.8%float observation));
        [reflexivity|apply old_entries_stamped].
    - unfold deduceRoles.
      apply (deduce_fold_stamped allSpeeches allVotes st alivePlayers
               ([], st)); [reflexivity|apply old_entries_stamped].
    - unfold generateStrategy. cbn [snd].
      apply addMemory_stamped; [reflexivity|apply old_entries_stamped].
    - exact (old_entries_stamped st).
    - exact (old_entries_stamped st). }
  rewrite Forall_forall in F. exact (F m).
Qed.

End Rounds.

Lemma new_entries_carry_the_current_round_example :
  let st := Mem.step (Mem.call_updateGameContext 4 DAY)
              (Mem.new SEER 2 None) in
  exists m,
    In m
      (Mem.memories
         (Mem.step
            (Mem.call_analyzeSpeech (mkSpeech 3 "我是村民")
               [(4, [mkSpeech 3 "我是村民"])] [mkPlayerInfo 3 true])
            st))
    /\ Mem.mem_round m = 4.
Proof.
  cbv zeta. eexists. split; [left; reflexivity|].
  destruct (@new_entries_carry_the_current_round example_host
              (Mem.call_analyzeSpeech (mkSpeech 3 "我是村民")
                 [(4, [mkSpeech 3 "我是村民"])] [mkPlayerInfo 3 true])
              (Mem.step (Mem.call_updateGameContext 4 DAY)
                 (Mem.new SEER 2 None))
              _ (or_introl eq_refl))
    as [[]|E].
  exact E.
Defined.

(** ** The player's server as the caller of the coordination engine *)

Section Server.
Context `{Externals}.

Lemma communicate_result context g comm :
  PlayerServer.werewolfComm g = Some comm ->
  PlayerServer.role g = WEREWOLF ->
  PlayerServer.werewolfCommunicate context (Some g)
  = (Normal
       (PlayerServer.mkResult
          (Comm.messageType
             (fst (Comm.generateWerewolfCommunication
                     (PlayerServer.playerId g)
                     (PlayerServer.werewolfContext g context)
                     (PlayerServer.pc_allSpeeches context)
                     (PlayerServer.pc_allVotes context) comm)))
          (Comm.comm_content
             (fst (Comm.generateWerewolfCommunication
                     (PlayerServer.playerId g)
                     (PlayerServer.werewolfContext g context)
                     (PlayerServer.pc_allSpeeches context)
                     (PlayerServer.pc_allVotes context) comm)))
          (Comm.comm_suggestedTarget
             (fst (Comm.generateWerewolfCommunication
                     (PlayerServer.playerId g)
                     (PlayerServer.werewolfContext g context)
                     (PlayerServer.pc_allSpeeches context)
                     (PlayerServer.pc_allVotes context) comm)))),
     Some
       (PlayerServer.mkGame (PlayerServer.gameId g)
          (PlayerServer.playerId g) (PlayerServer.role g)
          (PlayerServer.teammates g) (PlayerServer.aiMemory g)
          (Some
             (snd (Comm.generateWerewolfCommunication
                     (PlayerServer.playerId g)
                     (PlayerServer.werewolfContext g context)
                     (PlayerServer.pc_allSpeeches context)
                     (PlayerServer.pc_allVotes context) comm))))).
Proof.
  intros C R. unfold PlayerServer.werewolfCommunicate.
  rewrite C, R. reflexivity.
Qed.

(** X21: [werewolfCommunicate] serves a player exactly when its last
    [startGame] made it a wolf.  Right after a start as a wolf it returns
    a communication; after a start in any other role, and before any
    start, it raises the error that only wolves may use the dialogue, and
    leaves the instance as it is, even if an earlier game had set up the
    coordination engine. *)
Theorem only_a_wolf_can_communicate :
  forall params context s,
    let started := PlayerServer.startGame params s in
    (PlayerServer.sg_role params = WEREWOLF ->
     exists result s',
       PlayerServer.werewolfCommunicate context started
       = (Normal result, s'))
    /\ (PlayerServer.sg_role params <> WEREWOLF ->
        PlayerServer.werewolfCommunicate context started
        = (Throw "只有狼人才能使用对话功能", started))
    /\ PlayerServer.werewolfCommunicate context PlayerServer.new
       = (Throw "只有狼人才能使用对话功能", PlayerServer.new).
Proof.
  intros params context s started. split; [|split].
  - intros R. unfold started, PlayerServer.startGame. rewrite R.
    cbn [PlayerServer.is_werewolf].
    eexists. eexists.
    apply (communicate_result context _ Comm.new); reflexivity.
  - intros R. unfold started, PlayerServer.startGame,
      PlayerServer.werewolfCommunicate.
    cbn [PlayerServer.werewolfComm PlayerServer.role].
    destruct (PlayerServer.sg_role params); [contradiction| | |];
      cbn [PlayerServer.is_werewolf negb];
      destruct s as [g|]; try reflexivity;
      destruct (PlayerServer.werewolfComm g); reflexivity.
  - reflexivity.
Qed.

(** X22: a communication that [werewolfCommunicate] returns never
    suggests a teammate as the target, and hence never the player itself
    when the player is listed among its teammates.  The call logs one
    message in the coordination engine, sent by the player in the round of
    the snapshot with the returned content, and changes nothing else of
    the instance. *)
Theorem communicate_never_targets_a_teammate :
  forall context g result s',
    PlayerServer.werewolfCommunicate context (Some g) = (Normal result, s') ->
    (forall t team,
       PlayerServer.res_suggestedTarget result = Some t ->
       PlayerServer.teammates g = Some team ->
       includes t team = false
       /\ (includes (PlayerServer.playerId g) team = true ->
           t <> PlayerServer.playerId g))
    /\ exists comm comm' m,
         PlayerServer.werewolfComm g = Some comm
         /\ s' = Some
                   (PlayerServer.mkGame (PlayerServer.gameId g)
                      (PlayerServer.playerId g) (PlayerServer.role g)
                      (PlayerServer.teammates g) (PlayerServer.aiMemory g)
                      (Some comm'))
         /\ Comm.messages comm' = (Comm.messages comm ++ [m])%list
         /\ Comm.teamDecisions comm' = Comm.teamDecisions comm
         /\ Comm.senderId m = PlayerServer.playerId g
         /\ Comm.msg_round m = PlayerServer.pc_round context
         /\ Comm.msg_content m = PlayerServer.res_content result.
Proof.
  intros context g result s' E.
  destruct (PlayerServer.werewolfComm g) as [comm|] eqn:C.
  2:{ unfold PlayerServer.werewolfCommunicate in E. rewrite C in E.
      discriminate. }
  destruct (PlayerServer.role g) eqn:R;
    try (unfold PlayerServer.werewolfCommunicate in E; rewrite C, R in E;
         discriminate).
  rewrite (communicate_result context g comm C R) in E.
  injection E as <- <-. cbn [PlayerServer.res_suggestedTarget
                               PlayerServer.res_content].
  split.
  - intros t team T Tm.
    pose proof (suggestion_outside_team
                  (PlayerServer.werewolfContext g context)
                  (PlayerServer.playerId g)
                  (PlayerServer.pc_allSpeeches context)
                  (PlayerServer.pc_allVotes context) comm t T) as O.
    unfold PlayerServer.werewolfContext in O. cbv zeta in O.
    cbn [Comm.werewolfTeam] in O. rewrite Tm in O.
    split; [exact O|]. intros Me X. subst t. congruence.
  - exists comm. eexists. eexists. split; [reflexivity|].
    split; [rewrite R; reflexivity|].
    unfold Comm.generateWerewolfCommunication. cbv zeta. cbn [snd fst].
    rewrite addMessage_messages. split; [reflexivity|].
    repeat split.
Qed.

End Server.

Lemma communicate_never_targets_a_teammate_example :
  let g :=
    PlayerServer.mkGame "g1" 1 WEREWOLF (Some [1; 4])
      (Mem.new WEREWOLF 1 (Some [1; 4])) (Some Comm.new) in
  let context :=
    PlayerServer.mkPlayerContext 2 DAY
      [mkPlayerInfo 1 true; mkPlayerInfo 4 true; mkPlayerInfo 5 true]
      [(1, [mkSpeech 4 "我是预言家"; mkSpeech 5 "过"])] [] in
  exists result s',
    PlayerServer.werewolfCommunicate context (Some g) = (Normal result, s')
    /\ PlayerServer.res_suggestedTarget result = Some 5
    /\ includes 5 [1; 4] = false.
Proof.
  cbv zeta. eexists. eexists. split; [reflexivity|].
  split; [reflexivity|].
  exact (proj1
           (proj1
              (@communicate_never_targets_a_teammate example_host
                 (PlayerServer.mkPlayerContext 2 DAY
                    [mkPlayerInfo 1 true; mkPlayerInfo 4 true;
                     mkPlayerInfo 5 true]
                    [(1, [mkSpeech 4 "我是预言家"; mkSpeech 5 "过"])] [])
                 (PlayerServer.mkGame "g1" 1 WEREWOLF (Some [1; 4])
                    (Mem.new WEREWOLF 1 (Some [1; 4])) (Some Comm.new))
                 _ _ eq_refl)
              5 [1; 4] eq_refl eq_refl)).
Defined.

(** ** Repeated clean-ups *)

Section Cleanup.
Import WerewolfCommunicationSystem.

Lemma filter_twice {X} (f g : X -> bool) (l : list X) :
  filter f (filter g l) = filter (fun x => g x && f x) l.
Proof.
  induction l as [|x l IH]; cbn [filter]; [reflexivity|].
  destruct (g x); cbn [filter andb]; rewrite IH; reflexivity.
Qed.

Lemma prune_is_filter {V} (stale : Z -> bool) (keys : list Z)
  (m : list (Z * V)) :
  fold_left (fun h k => if stale k then Map_delete k h else h) keys m
  = filter
      (fun kv => negb (existsb (Z.eqb (fst kv)) keys && stale (fst kv))) m.
Proof.
  revert m. induction keys as [|k keys IH]; intros m; cbn [fold_left].
  - cbn [existsb andb negb]. induction m as [|kv m IHm]; cbn [filter];
      [reflexivity|]. rewrite <- IHm. reflexivity.
  - rewrite IH. destruct (stale k) eqn:S.
    + unfold Map_delete. rewrite filter_twice. apply filter_ext.
      intros [k0 v]. cbn [fst existsb].
      destruct (k0 =? k) eqn:E; cbn [negb andb orb].
      * apply Z.eqb_eq in E. subst k0. rewrite S. reflexivity.
      * reflexivity.
    + apply filter_ext. intros [k0 v]. cbn [fst existsb].
      destruct (k0 =? k) eqn:E; cbn [orb]; [|reflexivity].
      apply Z.eqb_eq in E. subst k0. rewrite S, andb_false_r.
      reflexivity.
Qed.

Lemma cleanup_history currentRound st :
  communicationHistory (cleanup currentRound st)
  = filter (fun kv => currentRound - fst kv <=? 3) (communicationHistory st).
Proof.
  unfold cleanup. cbn [communicationHistory].
  rewrite (prune_is_filter (fun r => 3 <? currentRound - r)).
  apply filter_ext_in. intros [k v] I. cbn [fst].
  replace (existsb (Z.eqb k) (Map_keys (communicationHistory st)))
    with true.
  - cbn [andb]. rewrite Z.leb_antisym. reflexivity.
  - symmetry. apply existsb_exists. exists k. split; [|apply Z.eqb_refl].
    apply (in_map fst) in I. exact I.
Qed.

(** X23: [cleanup] keeps the buckets of the history in their order,
    dropping those more than three rounds old, and clean-ups compose: one
    for a round after one for another round leaves what a single clean-up
    for the later of the two rounds leaves.  In particular a clean-up
    repeated for the same round changes nothing. *)
Theorem cleanups_compose :
  forall first second st,
    communicationHistory (cleanup first st)
    = filter (fun kv => first - fst kv <=? 3) (communicationHistory st)
    /\ cleanup second (cleanup first st) = cleanup (Z.max first second) st
    /\ cleanup first (cleanup first st) = cleanup first st.
Proof.
  assert (C : forall first second st,
             cleanup second (cleanup first st)
             = cleanup (Z.max first second) st).
  { intros first second st.
    pose proof (cleanup_history second (cleanup first st)) as H2.
    rewrite (cleanup_history first st), filter_twice in H2.
    pose proof (cleanup_history (Z.max first second) st) as Hm.
    assert (M : messages (cleanup second (cleanup first st))
                = messages (cleanup (Z.max first second) st)).
    { unfold cleanup. cbn [messages]. rewrite filter_twice.
      apply filter_ext. intros m.
      destruct (first - msg_round m <=? 3) eqn:A;
        destruct (second - msg_round m <=? 3) eqn:B; cbn [andb];
        symmetry;
        try (apply Z.leb_le; apply Z.leb_le in A, B; lia);
        apply Z.leb_gt; try apply Z.leb_gt in A; try apply Z.leb_gt in B;
        lia. }
    assert (Hs : communicationHistory (cleanup second (cleanup first st))
                 = communicationHistory (cleanup (Z.max first second) st)).
    { rewrite H2, Hm. apply filter_ext. intros [k v]. cbn [fst].
      destruct (first - k <=? 3) eqn:A;
        destruct (second - k <=? 3) eqn:B; cbn [andb];
        symmetry;
        try (apply Z.leb_le; apply Z.leb_le in A, B; lia);
        apply Z.leb_gt; try apply Z.leb_gt in A; try apply Z.leb_gt in B;
        lia. }
    destruct (cleanup second (cleanup first st)) as [m1 d1 h1 r1] eqn:L.
    destruct (cleanup (Z.max first second) st) as [m2 d2 h2 r2] eqn:R.
    cbn [messages communicationHistory] in M, Hs. subst m2 h2.
    assert (D : d1 = d2 /\ r1 = r2).
    { apply (f_equal teamDecisions) in L as Ld.
      apply (f_equal teamDecisions) in R as Rd.
      apply (f_equal readings) in L as Lr.
      apply (f_equal readings) in R as Rr.
      cbn in Ld, Rd, Lr, Rr. split; congruence. }
    destruct D as [-> ->]. reflexivity. }
  intros first second st. split; [apply cleanup_history|].
  split; [apply C|]. rewrite C, Z.max_id. reflexivity.
Qed.

End Cleanup.
